(** * Project risk simulator: the simulation engine of
      [project_simulator_streamlit.py]

    The engine is [simulate_project] (one stochastic pass over the stages) and
    [run_simulation] (the batch loop).  Both read the process-wide numpy
    generator; here the generator is an explicit state threaded through a small
    state-and-exception monad.  [create_stage_controls], which builds the
    configuration from the widgets, is modelled over an interface of the
    widgets it calls.

    Numbers.  Durations and delays are Python integers ([Z]).  Probabilities
    and the values of [np.random.random()] are floats; the program only ever
    compares them with [<], which is exact on the values the floats denote, so
    they are modelled by the rationals they denote ([Q]). *)

From Stdlib Require Import String ZArith QArith List Bool Lia Sorted.
Import ListNotations.
Open Scope Z_scope.

(** ** Data: the nested mappings of the program *)

(** One entry of a stage's ['risks'] list. *)
Module Risk.
Record t := make {
  type : string;
  probability : Q;
  impact : Z * Z;
  severity : string;
  mitigation : string }.
End Risk.

(** One value of the stages dictionary. *)
Module Stage.
Record t := make {
  name : string;
  baseline : Z;
  risks : list Risk.t }.
End Stage.

(** One entry appended to [risk_log]. *)
Module Event.
Record t := make {
  stage : Z;
  type : string;
  severity : string;
  delay : Z;
  mitigation : string }.
End Event.

(** One entry appended to [results]. *)
Module Row.
Record t := make {
  delay : Z;
  duration : Z }.
End Row.

(** A Python [dict] keyed by stage number.  Iteration follows insertion
    order, so the dictionary is an association list in that order; a
    dictionary never holds a key twice ([dict_wf]). *)
Definition Stages := list (Z * Stage.t).

Definition keys (stages : Stages) : list Z := map fst stages.

Definition dict_wf (stages : Stages) : Prop := NoDup (keys stages).

Fixpoint lookup (stages : Stages) (k : Z) : option Stage.t :=
  match stages with
  | [] => None
  | (k', v) :: rest => if k' =? k then Some v else lookup rest k
  end.

(** ** The initial configuration [DEFAULT_STAGES]

    A probability is the double its decimal literal denotes, written as a
    fraction: 0.2 and 0.3 are 54-bit fractions, 0.4 and 0.35 are 53-bit
    fractions, 0.25 is exact. *)
Definition DEFAULT_STAGES : Stages :=
  [ (1, Stage.make "Planning" 6
         [Risk.make "funding" (3602879701896397 # 18014398509481984) (1, 3)
                    "high" "emergency budget allocation"]);
    (2, Stage.make "Surveying" 6
         [Risk.make "logistics" (5404319552844595 # 18014398509481984) (1, 2)
                    "medium" "alternative transport"]);
    (3, Stage.make "Fund Allocation" 6 []);
    (4, Stage.make "Procurement" 6
         [Risk.make "supply_chain" (3602879701896397 # 9007199254740992) (2, 4)
                    "critical" "multiple suppliers";
          Risk.make "logistics" (1 # 4) (1, 3) "medium"
                    "local warehouses"]);
    (5, Stage.make "Installation" 6
         [Risk.make "labor" (3152519739159347 # 9007199254740992) (1, 4)
                    "high" "training programs"]);
    (6, Stage.make "Quality Check" 6 []) ].

(** ** The random generator *)

(** [np.random]: [random_sample] is one call of [np.random.random()], a value
    of the half-open interval from 0 to 1; [random_integer low high] is the
    draw of [np.random.randint(low, high)] on a non-empty range, a value from
    [low] up to [high - 1], returned as a Python integer. *)
Class RandomState (G : Type) := {
  random_sample : G -> Q * G;
  random_integer : Z -> Z -> G -> Z * G;
  random_sample_range :
    forall g, (0 <= fst (random_sample g))%Q /\ (fst (random_sample g) < 1)%Q;
  random_integer_range :
    forall low high g, low < high ->
      low <= fst (random_integer low high g) < high
}.

(** Exceptions: [ValueError] is what [np.random.randint] raises on a range
    it refuses; [KeyError] is a failed [stages[k]];
    [StreamlitAPIException] is what a widget raises when it refuses its
    arguments. *)
Inductive exn := ValueError | KeyError | StreamlitAPIException.

(** The integers of numpy's default integer type, 64 bits wide. *)
Definition int64_min : Z := - 2 ^ 63.
Definition int64_max : Z := 2 ^ 63 - 1.

Definition Qltb (x y : Q) : bool := (Qnum x * QDen y <? Qnum y * QDen x)%Z.

Definition range (n : Z) : list Z := map Z.of_nat (seq 0 (Z.to_nat n)).

(** Computations over the generator state that may raise.  The state is
    returned on both outcomes: draws made before an exception stay made. *)
Definition M (G A : Type) : Type := G -> (exn + A) * G.

Definition ret {G A} (a : A) : M G A := fun g => (inr a, g).

Definition raise {G A} (e : exn) : M G A := fun g => (inl e, g).

Definition bind {G A B} (m : M G A) (k : A -> M G B) : M G B :=
  fun g =>
    match m g with
    | (inr a, g') => k a g'
    | (inl e, g') => (inl e, g')
    end.

Notation "x <- m ;; k" := (bind m (fun x => k))
  (at level 61, m at next level, right associativity).
Notation "' p <- m ;; k" := (bind m (fun x => match x with p => k end))
  (at level 61, p pattern, m at next level, right associativity).

Section Engine.
Context {G : Type} `{RandomState G}.

(** A [for] loop over a list, the loop variables carried in [s]. *)
Fixpoint for_each {A S} (body : A -> S -> M G S) (xs : list A) (s : S)
    : M G S :=
  match xs with
  | [] => ret s
  | x :: rest => s' <- body x s ;; for_each body rest s'
  end.

Definition np_random_random : M G Q :=
  fun g => let (u, g') := random_sample g in (inr u, g').

(** [np.random.randint(low, high)] checks its arguments before it draws:
    [low] below the smallest 64-bit integer, [high] above the largest one
    plus 1, or [low >= high] raise [ValueError]. *)
Definition np_random_randint (low high : Z) : M G Z :=
  fun g =>
    if (int64_min <=? low) && (high <=? int64_max + 1) && (low <? high)
    then let (v, g') := random_integer low high g in (inr v, g')
    else (inl ValueError, g).

Definition getitem (stages : Stages) (k : Z) : M G Stage.t :=
  match lookup stages k with
  | Some v => ret v
  | None => raise KeyError
  end.

(** *** [simulate_project] *)

Definition fired_event (stage_num : Z) (risk : Risk.t) (delay : Z) : Event.t :=
  Event.make stage_num (Risk.type risk) (Risk.severity risk) delay
             (Risk.mitigation risk).

(** Body of [for risk in stage['risks']]; the loop variables are
    [(stage_duration, total_delay, risk_log)]. *)
Definition risk_body (stage_num : Z) (risk : Risk.t)
    (s : Z * Z * list Event.t) : M G (Z * Z * list Event.t) :=
  let '(stage_duration, total_delay, risk_log) := s in
  u <- np_random_random ;;
  if Qltb u (Risk.probability risk) then
    delay <- np_random_randint (fst (Risk.impact risk))
                               (snd (Risk.impact risk) + 1) ;;
    ret (stage_duration + delay, total_delay + delay,
         risk_log ++ [fired_event stage_num risk delay])
  else ret (stage_duration, total_delay, risk_log).

(** Body of [for stage_num in stages]; the loop variables are
    [(total_delay, cumulative_duration, risk_log)]. *)
Definition stage_body (stages : Stages) (stage_num : Z)
    (s : Z * Z * list Event.t) : M G (Z * Z * list Event.t) :=
  let '(total_delay, cumulative_duration, risk_log) := s in
  stage <- getitem stages stage_num ;;
  let stage_duration := Stage.baseline stage in
  ' (stage_duration, total_delay, risk_log) <-
    for_each (risk_body stage_num) (Stage.risks stage)
             (stage_duration, total_delay, risk_log) ;;
  ret (total_delay, cumulative_duration + stage_duration, risk_log).

Definition simulate_project (stages : Stages) : M G (Z * Z * list Event.t) :=
  for_each (stage_body stages) (keys stages) (0, 0, []).

(** *** [run_simulation]

    The two data frames are built from the two lists as they are; the
    lists are what is returned here. *)
Definition trial_body (stages : Stages) (_ : Z)
    (s : list Row.t * list Event.t) : M G (list Row.t * list Event.t) :=
  let '(results, risk_register) := s in
  ' (delay, duration, risks) <- simulate_project stages ;;
  ret (results ++ [Row.make delay duration], risk_register ++ risks).

Definition run_simulation (stages : Stages) (num_simulations : Z)
    : M G (list Row.t * list Event.t) :=
  for_each (trial_body stages) (range num_simulations) ([], []).

End Engine.

(** ** The controls: [create_stage_controls] *)

(** The [key] of a widget: [key_baseline n] is ["stage_{n}_baseline"],
    [key_prob n i] is ["stage_{n}_risk_{i}_prob"], [key_min n i] and
    [key_max n i] are ["stage_{n}_risk_{i}_min"] and ["..._max"]. *)
Inductive widget_key :=
| key_baseline (stage_num : Z)
| key_prob (stage_num : Z) (risk_idx : nat)
| key_min (stage_num : Z) (risk_idx : nat)
| key_max (stage_num : Z) (risk_idx : nat).

(** The Streamlit front end over a session [U] (what the user has entered).
    [number_input key min_value max_value value] and [slider key min_value
    max_value value] return the current value of the widget or raise; a
    value they return lies between [min_value] and [max_value].  Widgets
    read the session and leave it as it is. *)
Class Streamlit (U : Type) := {
  number_input : widget_key -> Z -> Z -> Z -> U -> exn + Z;
  slider : widget_key -> Q -> Q -> Q -> U -> exn + Q;
  number_input_range :
    forall key lo hi v u x, number_input key lo hi v u = inr x -> lo <= x <= hi;
  slider_range :
    forall key lo hi v u x, slider key lo hi v u = inr x ->
      (lo <= x)%Q /\ (x <= hi)%Q
}.

(** [d[k] = v] on a dictionary: an existing key keeps its place, a new key
    goes last. *)
Fixpoint setitem (d : Stages) (k : Z) (v : Stage.t) : Stages :=
  match d with
  | [] => [(k, v)]
  | (k', v') :: rest =>
      if k' =? k then (k', v) :: rest else (k', v') :: setitem rest k v
  end.

Definition enumerate {A} (l : list A) : list (nat * A) :=
  combine (seq 0 (length l)) l.

Section Controls.
Context {U : Type} `{Streamlit U}.

Definition st_number_input (key : widget_key) (min_value max_value value : Z)
    : M U Z :=
  fun u => (number_input key min_value max_value value u, u).

Definition st_slider (key : widget_key) (min_value max_value value : Q)
    : M U Q :=
  fun u => (slider key min_value max_value value u, u).

(** Body of [for risk_idx, risk in enumerate(stage['risks'])]; the loop
    variable is [modified_risks]. *)
Definition control_risk (stage_num : Z) (ir : nat * Risk.t)
    (modified_risks : list Risk.t) : M U (list Risk.t) :=
  let (risk_idx, risk) := ir in
  new_prob <- st_slider (key_prob stage_num risk_idx) 0 1
                        (Risk.probability risk) ;;
  impact_min <- st_number_input (key_min stage_num risk_idx) 0 24
                                (fst (Risk.impact risk)) ;;
  impact_max <- st_number_input (key_max stage_num risk_idx) impact_min 24
                                (snd (Risk.impact risk)) ;;
  ret (modified_risks ++
       [Risk.make (Risk.type risk) new_prob (impact_min, impact_max)
                  (Risk.severity risk) (Risk.mitigation risk)]).

(** Body of [for stage_num in DEFAULT_STAGES]; the loop variables are
    [(modified_stages, total_baseline)]. *)
Definition control_stage (defaults : Stages) (stage_num : Z)
    (s : Stages * Z) : M U (Stages * Z) :=
  let '(modified_stages, total_baseline) := s in
  stage <- getitem defaults stage_num ;;
  new_baseline <- st_number_input (key_baseline stage_num) 1 24
                                  (Stage.baseline stage) ;;
  let total_baseline := total_baseline + new_baseline in
  modified_risks <- for_each (control_risk stage_num)
                             (enumerate (Stage.risks stage)) [] ;;
  ret (setitem modified_stages stage_num
               (Stage.make (Stage.name stage) new_baseline modified_risks),
       total_baseline).

(** [create_stage_controls], the global [DEFAULT_STAGES] it reads taken
    as [defaults]. *)
Definition create_stage_controls_over (defaults : Stages) : M U (Stages * Z) :=
  for_each (control_stage defaults) (keys defaults) ([], 0).

Definition create_stage_controls : M U (Stages * Z) :=
  create_stage_controls_over DEFAULT_STAGES.

End Controls.

(** ** A generator that replays a tape

    The state is the list of raw words still to be delivered; an exhausted
    tape delivers zeros.  [random_sample] turns a word into a 53-bit
    fraction, [random_integer] reduces it into the requested range. *)
Definition tape := list Z.

Definition next_word (g : tape) : Z * tape :=
  match g with
  | [] => (0, [])
  | w :: rest => (w, rest)
  end.

Definition tape_sample (g : tape) : Q * tape :=
  let (w, rest) := next_word g in
  (Qmake (w mod 2 ^ 53) (Z.to_pos (2 ^ 53)), rest).

Definition tape_integer (low high : Z) (g : tape) : Z * tape :=
  let (w, rest) := next_word g in
  (low + w mod (high - low), rest).

#[export, refine] Instance tape_RandomState : RandomState tape :=
  {| random_sample := tape_sample; random_integer := tape_integer |}.
Proof.
  - intros g. unfold tape_sample. destruct (next_word g) as [w rest].
    cbn [fst].
    pose proof (Z.mod_pos_bound w (2 ^ 53) ltac:(lia)) as Hb.
    unfold Qle, Qlt; cbn [Qnum Qden].
    rewrite Z2Pos.id by lia. split; lia.
  - intros low high g Hlt. unfold tape_integer.
    destruct (next_word g) as [w rest]. cbn [fst].
    pose proof (Z.mod_pos_bound w (high - low) ltac:(lia)). lia.
Defined.

Definition w_max : Z := 2 ^ 53 - 1.

(** A front end for the examples: the session holds the numbers the user
    has typed, by widget; sliders are left at their defaults.  A widget
    whose default lies outside its bounds raises; a typed number that the
    bounds of the widget no longer admit is dropped for the default. *)
Definition session : Type := widget_key -> option Z.

Definition within (lo hi x : Z) : bool := (lo <=? x) && (x <=? hi).

Definition session_number_input (key : widget_key) (lo hi v : Z) (u : session)
    : exn + Z :=
  if within lo hi v then
    match u key with
    | Some x => if within lo hi x then inr x else inr v
    | None => inr v
    end
  else inl StreamlitAPIException.

Definition session_slider (key : widget_key) (lo hi v : Q) (u : session)
    : exn + Q :=
  if Qle_bool lo v && Qle_bool v hi then inr v else inl StreamlitAPIException.

#[export, refine] Instance session_Streamlit : Streamlit session :=
  {| number_input := session_number_input; slider := session_slider |}.
Proof.
  - intros key lo hi v u x. unfold session_number_input, within.
    destruct ((lo <=? v) && (v <=? hi)) eqn:Hv; [|discriminate].
    destruct (u key) as [y|].
    + apply andb_true_iff in Hv as [H1 H2]. apply Z.leb_le in H1, H2.
      destruct ((lo <=? y) && (y <=? hi)) eqn:Hy; intros [= <-]; [|lia].
      apply andb_true_iff in Hy as [H3 H4]. apply Z.leb_le in H3, H4. lia.
    + intros [= <-]. apply andb_true_iff in Hv as [H1 H2].
      apply Z.leb_le in H1, H2. lia.
  - intros key lo hi v u x. unfold session_slider.
    destruct (Qle_bool lo v && Qle_bool v hi) eqn:Hv; [|discriminate].
    intros [= <-]. apply andb_true_iff in Hv as [H1 H2].
    split; now apply Qle_bool_iff.
Defined.

(** The first rendering (nothing typed yet) and a session in which the user
    has raised the minimum impact of the funding risk of stage 1 to 2. *)
Definition first_render : session := fun _ => None.

Definition funding_min_2 : session :=
  fun key => match key with
             | key_min 1 O => Some 2
             | _ => None
             end.

(** A configuration with a risk whose impact runs from 3 to 1. *)
Definition invalid_stages : Stages :=
  [ (1, Stage.make "Planning" 6
         [Risk.make "funding" (1 # 2) (3, 1) "high" "reserve"]) ].

(** ** Concrete configurations and tapes used in the examples *)

(** A tape on which, over [DEFAULT_STAGES], the funding risk fires with
    delay 3, the surveying risk does not fire, both procurement risks fire
    (delays 3 and 1) and the labor risk does not. *)
Definition demo_tape : tape := [0; 5; w_max; 0; 7; 0; 0; w_max].

Ltac solve_dict_wf :=
  unfold dict_wf, keys; cbn;
  repeat (constructor; [cbn; intuition lia|]); constructor.

(** One stage with one risk that fires on half of the samples and always
    delays by one month. *)
Definition coin_stages : Stages :=
  [ (1, Stage.make "Planning" 6
         [Risk.make "funding" (1 # 2) (1, 1) "high" "reserve"]) ].

(** Two stages supplied with the larger number first. *)
Definition swapped_stages : Stages :=
  [ (2, Stage.make "Surveying" 6
         [Risk.make "logistics" (1 # 2) (1, 1) "medium" "alternative transport"]);
    (1, Stage.make "Planning" 6
         [Risk.make "funding" (1 # 2) (1, 1) "high" "reserve"]) ].



(** A session in which the user has raised the minimum impact of the funding
    risk above the default maximum 3 of that risk. *)
Definition funding_min_5 : session :=
  fun key => match key with
             | key_min 1 O => Some 5
             | _ => None
             end.

(** ** Vocabulary of the statements *)

Definition sumZ (l : list Z) : Z := fold_right Z.add 0 l.

(** The fired events of a log that carry stage number [k], and what stage
    [k] adds to the duration of a run with that log. *)
Definition events_of_stage (k : Z) (log : list Event.t) : list Event.t :=
  filter (fun e => Event.stage e =? k) log.

Definition stage_contribution (k : Z) (st : Stage.t) (log : list Event.t) : Z :=
  Stage.baseline st + sumZ (map Event.delay (events_of_stage k log)).

Definition total_risks (stages : Stages) : nat :=
  length (flat_map (fun kv => Stage.risks (snd kv)) stages).

(** What happened to one risk definition in one run: the sample drawn for
    it and, when it fired, the delay drawn. *)
Definition outcome : Type := Q * option Z.

Definition outcome_delay (o : outcome) : Z :=
  match snd o with Some d => d | None => 0 end.

Definition outcomes_delay (os : list outcome) : Z :=
  sumZ (map outcome_delay os).

Fixpoint outcomes_events (k : Z) (rs : list Risk.t) (os : list outcome)
    : list Event.t :=
  match rs, os with
  | r :: rs', (_, Some d) :: os' => fired_event k r d :: outcomes_events k rs' os'
  | _ :: rs', (_, None) :: os' => outcomes_events k rs' os'
  | _, _ => []
  end.

(** The firing rule, read off an outcome. *)
Definition outcome_ok (r : Risk.t) (o : outcome) : Prop :=
  (0 <= fst o)%Q /\ (fst o < 1)%Q /\
  match snd o with
  | Some d => (fst o < Risk.probability r)%Q /\
              fst (Risk.impact r) <= d <= snd (Risk.impact r)
  | None => ~ (fst o < Risk.probability r)%Q
  end.

(** A run, stage by stage: the key, the stage and the outcomes of its risks. *)
Definition trace : Type := list (Z * Stage.t * list outcome).

Definition trace_delay (tr : trace) : Z :=
  sumZ (map (fun x => outcomes_delay (snd x)) tr).

Definition trace_duration (tr : trace) : Z :=
  sumZ (map (fun x => Stage.baseline (snd (fst x)) + outcomes_delay (snd x)) tr).

Definition trace_log (tr : trace) : list Event.t :=
  flat_map (fun x => outcomes_events (fst (fst x)) (Stage.risks (snd (fst x)))
                                     (snd x)) tr.

Definition trace_ok (tr : trace) : Prop :=
  Forall (fun x => Forall2 outcome_ok (Stage.risks (snd (fst x))) (snd x)) tr.

(** A risk definition whose impact range [np.random.randint] accepts: not
    empty and within the 64-bit integers. *)
Definition drawable (r : Risk.t) : bool :=
  (int64_min <=? fst (Risk.impact r)) && (snd (Risk.impact r) <=? int64_max)
  && (fst (Risk.impact r) <=? snd (Risk.impact r)).

(** A risk definition that cannot make a run raise: its range is accepted,
    or it never fires. *)
Definition safe_risk (r : Risk.t) : Prop :=
  drawable r = true \/ (Risk.probability r <= 0)%Q.

Definition safe_configuration (stages : Stages) : Prop :=
  Forall (fun kv => Forall safe_risk (Stage.risks (snd kv))) stages.

(** The checks of the Risk Model on a configuration.  The widgets of
    [create_stage_controls] enforce each of them (with 24 as an upper
    bound besides) on what they hand to the engine. *)
Definition valid_risk (r : Risk.t) : Prop :=
  (0 <= Risk.probability r)%Q /\ (Risk.probability r <= 1)%Q /\
  0 <= fst (Risk.impact r) <= snd (Risk.impact r).

Definition valid_stage (st : Stage.t) : Prop :=
  1 <= Stage.baseline st /\ Forall valid_risk (Stage.risks st).

Definition valid_configuration (stages : Stages) : Prop :=
  dict_wf stages /\ Forall (fun kv => valid_stage (snd kv)) stages.

(** What the widgets let through. *)
Definition controlled_risk (r : Risk.t) : Prop :=
  (0 <= Risk.probability r)%Q /\ (Risk.probability r <= 1)%Q /\
  0 <= fst (Risk.impact r) <= snd (Risk.impact r) /\
  snd (Risk.impact r) <= 24.

Definition controlled_stage (st : Stage.t) : Prop :=
  1 <= Stage.baseline st <= 24 /\ Forall controlled_risk (Stage.risks st).

Definition controlled_configuration (stages : Stages) : Prop :=
  dict_wf stages /\ Forall (fun kv => controlled_stage (snd kv)) stages.

Definition every_risk (P : Risk.t -> Prop) (stages : Stages) : Prop :=
  Forall (fun kv => Forall P (Stage.risks (snd kv))) stages.

Definition total_baseline (stages : Stages) : Z :=
  sumZ (map (fun kv => Stage.baseline (snd kv)) stages).



(** The stages in ascending order of their numbers. *)
Fixpoint insert_by_key (kv : Z * Stage.t) (l : Stages) : Stages :=
  match l with
  | [] => [kv]
  | kv' :: rest =>
      if fst kv <=? fst kv' then kv :: l else kv' :: insert_by_key kv rest
  end.

Definition ascending (stages : Stages) : Stages :=
  fold_right insert_by_key [] stages.

(** What one call of [simulate_project] returns. *)
Definition run : Type := Z * Z * list Event.t.

Definition summary (r : run) : Row.t := Row.make (fst (fst r)) (snd (fst r)).

Definition run_log (r : run) : list Event.t := snd r.

Section Vocabulary.
Context {G : Type} `{RandomState G}.

(** [in_sequence stages g runs g']: calling [simulate_project stages]
    once per element of [runs], each call starting in the generator state
    the previous one left, returns exactly [runs] and leaves [g']. *)
Fixpoint in_sequence (stages : Stages) (g : G) (runs : list run) (g' : G)
    : Prop :=
  match runs with
  | [] => g' = g
  | r :: rest =>
      exists g1, simulate_project stages g = (inr r, g1) /\
                 in_sequence stages g1 rest g'
  end.

(** The reading of "every record is tagged with the run it came from": some
    function of the register and of a position in it gives the index of the
    run that logged the record at that position, whatever the generator
    does.  Position [j] of run [i] is preceded by the logs of the runs
    before [i]. *)
Definition register_identifies_runs (stages : Stages) (n : nat) : Prop :=
  exists run_of : list Event.t -> nat -> nat,
    forall (g : G) runs g',
      in_sequence stages g runs g' -> length runs = n ->
      forall i r j,
        nth_error runs i = Some r -> (j < length (run_log r))%nat ->
        run_of (concat (map run_log runs))
               (length (concat (map run_log (firstn i runs))) + j)%nat = i.

(** Running stage [k] on fresh counters and then the computation [rest],
    adding up what the two return. *)
Definition stage_then (k : Z) (st : Stage.t) (rest : M G run) : M G run :=
  ' (sd, td, log) <-
    for_each (risk_body k) (Stage.risks st) (Stage.baseline st, 0, []) ;;
  ' (td', dur', log') <- rest ;;
  ret (td + td', sd + dur', log ++ log').

(** Adding the counters [td], [cd] and the log [log] in front of what a
    run returns. *)
Definition shift (td cd : Z) (log : list Event.t) (res : (exn + run) * G)
    : (exn + run) * G :=
  match res with
  | (inr (td', cd', log'), g') => (inr (td + td', cd + cd', log ++ log'), g')
  | (inl e, g') => (inl e, g')
  end.

(** The next [k] draws of the two generators agree, whatever is asked of
    them: samples agree, and integers agree on every non-empty range. *)
Fixpoint same_stream (k : nat) (g1 g2 : G) : Prop :=
  match k with
  | O => True
  | S k' =>
      fst (random_sample g1) = fst (random_sample g2) /\
      same_stream k' (snd (random_sample g1)) (snd (random_sample g2)) /\
      forall low high, low < high ->
        fst (random_integer low high g1) = fst (random_integer low high g2) /\
        same_stream k' (snd (random_integer low high g1))
                       (snd (random_integer low high g2))
  end.

(** The most draws one pass over stage [k], one run, can make. *)
Definition draws_of_stage (stages : Stages) (k : Z) : nat :=
  match lookup stages k with
  | Some st => 2 * length (Stage.risks st)
  | None => 0
  end.

Definition max_draws (stages : Stages) : nat :=
  list_sum (map (draws_of_stage stages) (keys stages)).

(** A computation that returns the same on generators whose next [c]
    draws agree, and leaves generators that still agree afterwards. *)
Definition agrees {A} (c : nat) (m : M G A) : Prop :=
  forall k g1 g2, same_stream (c + k) g1 g2 ->
    fst (m g1) = fst (m g2) /\ same_stream k (snd (m g1)) (snd (m g2)).

End Vocabulary.

(** ** Vocabulary of the further properties *)

(** The risk definitions of a configuration, each with the number of its
    stage, in the order of the stages and of their lists. *)
Definition definitions (stages : Stages) : list (Z * Risk.t) :=
  flat_map (fun kv => map (fun r => (fst kv, r)) (Stage.risks (snd kv))) stages.

(** The delay of a run in which every risk fires at its largest impact. *)
Definition max_total_delay (stages : Stages) : Z :=
  sumZ (map (fun kr => snd (Risk.impact (snd kr))) (definitions stages)).

Definition impact_ordered (r : Risk.t) : Prop :=
  0 <= fst (Risk.impact r) <= snd (Risk.impact r).

(** [subseq l1 l2]: [l1] is [l2] with some elements left out, the others in
    their order. *)
Inductive subseq {A : Type} : list A -> list A -> Prop :=
| subseq_nil : subseq [] []
| subseq_skip x l1 l2 : subseq l1 l2 -> subseq l1 (x :: l2)
| subseq_take x l1 l2 : subseq l1 l2 -> subseq (x :: l1) (x :: l2).

(** A fired risk: the stage number, the definition and the delay drawn. *)
Definition firing : Type := Z * Risk.t * Z.

Definition firing_event (f : firing) : Event.t :=
  fired_event (fst (fst f)) (snd (fst f)) (snd f).

(** Two risk definitions, and two entries of a stages dictionary, that
    differ at most in what the controls set. *)
Definition same_labels (r r' : Risk.t) : Prop :=
  Risk.type r' = Risk.type r /\ Risk.severity r' = Risk.severity r /\
  Risk.mitigation r' = Risk.mitigation r.

Definition same_shape (kv kv' : Z * Stage.t) : Prop :=
  fst kv' = fst kv /\ Stage.name (snd kv') = Stage.name (snd kv) /\
  Forall2 same_labels (Stage.risks (snd kv)) (Stage.risks (snd kv')).

(** A session in which no widget has been touched: a widget whose default
    lies within its bounds returns the default. *)
Definition untouched {U : Type} `{Streamlit U} (u : U) : Prop :=
  (forall key lo hi v, lo <= v <= hi -> number_input key lo hi v u = inr v) /\
  (forall key lo hi v, (lo <= v)%Q /\ (v <= hi)%Q ->
     slider key lo hi v u = inr v).


Section ControlsVocabulary.
Context {U : Type} `{Streamlit U}.





End ControlsVocabulary.

(** A generator with a counter of the draws made on it. *)
Definition counted_sample {G : Type} `{RandomState G} (gc : G * nat)
    : Q * (G * nat) :=
  let (u, g') := random_sample (fst gc) in (u, (g', S (snd gc))).

Definition counted_integer {G : Type} `{RandomState G} (low high : Z)
    (gc : G * nat) : Z * (G * nat) :=
  let (v, g') := random_integer low high (fst gc) in (v, (g', S (snd gc))).

#[refine] Definition counted {G : Type} (RS : RandomState G)
    : RandomState (G * nat) :=
  {| random_sample := counted_sample; random_integer := counted_integer |}.
Proof.
  - intros [g c]. unfold counted_sample. cbn [fst snd].
    pose proof (random_sample_range g) as Hu.
    destruct (random_sample g) as [u g']. exact Hu.
  - intros low high [g c] Hlt. unfold counted_sample, counted_integer.
    cbn [fst snd].
    pose proof (random_integer_range low high g Hlt) as Hv.
    destruct (random_integer low high g) as [v g']. exact Hv.
Defined.

Section Sampling.
Context {G : Type} `{RandomState G}.




End Sampling.

(** Every maximal impact is one [np.random.randint] accepts as the end of
    a range. *)
Definition impacts_fit_int64 (stages : Stages) : Prop :=
  every_risk (fun r => snd (Risk.impact r) <= int64_max) stages.

(** One stage with one risk that always fires and whose maximal impact is
    2^63, one more than the largest 64-bit integer; and the same with both
    impacts equal to 2^63. *)
Definition big_stages : Stages :=
  [ (1, Stage.make "Planning" 6
         [Risk.make "funding" 1 (0, 2 ^ 63) "high" "reserve"]) ].


(** ** Basic facts *)

Lemma Qltb_lt (x y : Q) : Qltb x y = true <-> (x < y)%Q.
Proof. unfold Qltb, Qlt. apply Z.ltb_lt. Qed.

Lemma Qltb_nlt (x y : Q) : Qltb x y = false <-> ~ (x < y)%Q.
Proof. rewrite <- Qltb_lt. destruct (Qltb x y); split; congruence. Qed.

Lemma sumZ_app (l1 l2 : list Z) : sumZ (l1 ++ l2) = sumZ l1 + sumZ l2.
Proof.
  unfold sumZ. induction l1 as [|a l1 IH]; cbn; [reflexivity | rewrite IH; lia].
Qed.

Lemma lookup_In (stages : Stages) (k : Z) (st : Stage.t) :
  dict_wf stages -> In (k, st) stages -> lookup stages k = Some st.
Proof.
  unfold dict_wf, keys.
  induction stages as [|[k' v] rest IH]; cbn; intros Hnd Hin; [contradiction|].
  inversion Hnd as [|? ? Hnotin Hnd']; subst.
  destruct Hin as [Heq | Hin].
  - inversion Heq; subst. now rewrite Z.eqb_refl.
  - destruct (Z.eqb_spec k' k) as [->|Hne].
    + exfalso. apply Hnotin. change k with (fst (k, st)). now apply in_map.
    + now apply IH.
Qed.

Lemma range_length (n : Z) : length (range n) = Z.to_nat n.
Proof. unfold range. now rewrite length_map, length_seq. Qed.

Lemma range_nonpos (n : Z) : n < 1 -> range n = [].
Proof.
  intros Hn. unfold range.
  replace (Z.to_nat n) with 0%nat by lia. reflexivity.
Qed.

(** ** The loops, read as traces *)

Section Traces.
Context {G : Type} `{RandomState G}.

Lemma bind_inr {A B} (m : M G A) (k : A -> M G B) g b g' :
  bind m k g = (inr b, g') ->
  exists a g1, m g = (inr a, g1) /\ k a g1 = (inr b, g').
Proof.
  unfold bind. destruct (m g) as [[e|a] g1]; intros Hk.
  - discriminate.
  - now exists a, g1.
Qed.

(** One risk definition: exactly one sample is drawn; the risk fires when
    the sample is below its probability, and then one integer is drawn. *)
Lemma int64_min_nonpos : int64_min <= 0.
Proof. now vm_compute. Qed.

Lemma int64_max_above_24 : 24 <= int64_max.
Proof. now vm_compute. Qed.

Lemma drawable_iff (r : Risk.t) :
  drawable r = true <->
  int64_min <= fst (Risk.impact r) /\ fst (Risk.impact r) <= snd (Risk.impact r)
  /\ snd (Risk.impact r) <= int64_max.
Proof.
  unfold drawable. rewrite !andb_true_iff, !Z.leb_le. tauto.
Qed.

Lemma risk_body_cases k r sd td log g :
  let u := fst (random_sample g) in
  let g1 := snd (random_sample g) in
  let low := fst (Risk.impact r) in
  let high := snd (Risk.impact r) in
  let d := fst (random_integer low (high + 1) g1) in
  let g2 := snd (random_integer low (high + 1) g1) in
  risk_body k r (sd, td, log) g =
    if Qltb u (Risk.probability r) then
      if drawable r
      then (inr (sd + d, td + d, log ++ [fired_event k r d]), g2)
      else (inl ValueError, g1)
    else (inr (sd, td, log), g1).
Proof.
  cbv zeta. unfold risk_body, bind, np_random_random, np_random_randint, ret.
  destruct (random_sample g) as [u g1]; cbn [fst snd].
  destruct (Qltb u (Risk.probability r)); [|reflexivity].
  replace ((int64_min <=? fst (Risk.impact r))
           && (snd (Risk.impact r) + 1 <=? int64_max + 1)
           && (fst (Risk.impact r) <? snd (Risk.impact r) + 1))
    with (drawable r).
  - destruct (drawable r); [|reflexivity].
    now destruct (random_integer _ _ g1).
  - unfold drawable. f_equal; [f_equal|].
    + destruct (Z.leb_spec (snd (Risk.impact r)) int64_max);
        symmetry; [apply Z.leb_le | apply Z.leb_gt]; lia.
    + destruct (Z.leb_spec (fst (Risk.impact r)) (snd (Risk.impact r)));
        symmetry; [apply Z.ltb_lt | apply Z.ltb_ge]; lia.
Qed.

Lemma risk_body_inr k r sd td log g sd' td' log' g' :
  risk_body k r (sd, td, log) g = (inr (sd', td', log'), g') ->
  exists o, outcome_ok r o /\
    sd' = sd + outcome_delay o /\ td' = td + outcome_delay o /\
    log' = log ++ outcomes_events k [r] [o].
Proof.
  rewrite risk_body_cases.
  pose proof (random_sample_range g) as [Hu0 Hu1].
  destruct (Qltb _ _) eqn:Hfire.
  - destruct (drawable r) eqn:Hdr; [|discriminate].
    apply drawable_iff in Hdr as (_ & Hle & _).
    intros Heq; inversion Heq; subst; clear Heq.
    pose proof (random_integer_range (fst (Risk.impact r))
                  (snd (Risk.impact r) + 1) (snd (random_sample g))
                  ltac:(lia)) as Hd.
    eexists (fst (random_sample g), Some _).
    unfold outcome_ok, outcome_delay; cbn [fst snd outcomes_events].
    apply Qltb_lt in Hfire.
    repeat split; try eassumption; try reflexivity; lia.
  - intros Heq; inversion Heq; subst; clear Heq.
    exists (fst (random_sample g), None).
    unfold outcome_ok, outcome_delay; cbn [fst snd outcomes_events].
    apply Qltb_nlt in Hfire.
    repeat split; try assumption; try lia. now rewrite app_nil_r.
Qed.

Lemma risk_loop_inr k rs : forall sd td log g sd' td' log' g',
  for_each (risk_body k) rs (sd, td, log) g = (inr (sd', td', log'), g') ->
  exists os, Forall2 outcome_ok rs os /\
    sd' = sd + outcomes_delay os /\ td' = td + outcomes_delay os /\
    log' = log ++ outcomes_events k rs os.
Proof.
  induction rs as [|r rs IH]; intros sd td log g sd' td' log' g' Hrun.
  - cbn in Hrun. inversion Hrun; subst. exists [].
    unfold outcomes_delay; cbn. rewrite app_nil_r.
    repeat split; try constructor; lia.
  - cbn [for_each] in Hrun.
    apply bind_inr in Hrun as ([[sd1 td1] log1] & g1 & Hstep & Hrest).
    apply risk_body_inr in Hstep as (o & Hok & -> & -> & ->).
    apply IH in Hrest as (os & Hall & -> & -> & ->).
    exists (o :: os). unfold outcomes_delay, sumZ; cbn [map fold_right].
    split; [now constructor|]. split; [lia|]. split; [lia|].
    rewrite <- app_assoc. f_equal.
    destruct o as [u [d|]]; reflexivity.
Qed.

Lemma stage_body_inr stages k td cd log g td' cd' log' g' :
  stage_body stages k (td, cd, log) g = (inr (td', cd', log'), g') ->
  exists st os, lookup stages k = Some st /\
    Forall2 outcome_ok (Stage.risks st) os /\
    td' = td + outcomes_delay os /\
    cd' = cd + (Stage.baseline st + outcomes_delay os) /\
    log' = log ++ outcomes_events k (Stage.risks st) os.
Proof.
  unfold stage_body, getitem. intros Hrun.
  apply bind_inr in Hrun as (st & g1 & Hget & Hrun).
  destruct (lookup stages k) as [st0|] eqn:Hlook; [|discriminate].
  inversion Hget; subst st0 g1; clear Hget.
  apply bind_inr in Hrun as ([[sd1 td1] log1] & g1 & Hloop & Hret).
  inversion Hret; subst; clear Hret.
  apply risk_loop_inr in Hloop as (os & Hall & -> & -> & ->).
  now exists st, os.
Qed.

Lemma stage_loop_inr stages ks : forall td cd log g td' cd' log' g',
  for_each (stage_body stages) ks (td, cd, log) g
    = (inr (td', cd', log'), g') ->
  exists tr : trace,
    map (fun x => fst (fst x)) tr = ks /\
    Forall (fun x => lookup stages (fst (fst x)) = Some (snd (fst x))) tr /\
    trace_ok tr /\
    td' = td + trace_delay tr /\ cd' = cd + trace_duration tr /\
    log' = log ++ trace_log tr.
Proof.
  induction ks as [|k ks IH]; intros td cd log g td' cd' log' g' Hrun.
  - cbn in Hrun. inversion Hrun; subst. exists [].
    unfold trace_ok, trace_delay, trace_duration, trace_log; cbn.
    rewrite app_nil_r. repeat split; try constructor; lia.
  - cbn [for_each] in Hrun.
    apply bind_inr in Hrun as ([[td1 cd1] log1] & g1 & Hstep & Hrest).
    apply stage_body_inr in Hstep as (st & os & Hlook & Hok & -> & -> & ->).
    apply IH in Hrest as (tr & Hks & Hlooks & Htr & -> & -> & ->).
    exists ((k, st, os) :: tr).
    unfold trace_ok, trace_delay, trace_duration, trace_log, sumZ in *.
    cbn [map fold_right flat_map fst snd].
    split; [now rewrite Hks|]. split; [now constructor|].
    split; [now constructor|]. split; [lia|]. split; [lia|].
    now rewrite app_assoc.
Qed.

Lemma trace_of_dict (stages : Stages) (tr : trace) : forall ents : Stages,
  (forall k st, In (k, st) ents -> lookup stages k = Some st) ->
  map (fun x => fst (fst x)) tr = keys ents ->
  Forall (fun x => lookup stages (fst (fst x)) = Some (snd (fst x))) tr ->
  map fst tr = ents.
Proof.
  induction tr as [|[[k st] os] tr IH]; intros [|[k' st'] ents] Hent Hks Hlk;
    try discriminate; [reflexivity|].
  cbn in Hks. injection Hks as -> Hks.
  inversion Hlk as [|? ? Hhead Htail]; subst. cbn [fst snd] in Hhead.
  rewrite (Hent k' st' (or_introl eq_refl)) in Hhead.
  injection Hhead as ->. cbn [map fst]. f_equal.
  apply IH; auto. intros k0 st0 Hin. apply Hent. now right.
Qed.

(** A run that returns is described by a trace over the configuration. *)
Lemma simulate_project_trace stages g td dur log g' :
  dict_wf stages ->
  simulate_project stages g = (inr (td, dur, log), g') ->
  exists tr : trace,
    map fst tr = stages /\ trace_ok tr /\
    td = trace_delay tr /\ dur = trace_duration tr /\ log = trace_log tr.
Proof.
  intros Hwf Hrun. unfold simulate_project in Hrun.
  apply stage_loop_inr in Hrun as (tr & Hks & Hlk & Hok & -> & -> & ->).
  exists tr. repeat split; auto.
  apply (trace_of_dict stages); auto.
  intros k st. now apply lookup_In.
Qed.

(** When every risk is safe no call can raise. *)
Lemma risk_loop_returns k rs : Forall safe_risk rs -> forall s g,
  exists s' g', for_each (risk_body k) rs s g = (inr s', g').
Proof.
  induction 1 as [|r rs Hr _ IH]; intros [[sd td] log] g; cbn [for_each].
  - now exists (sd, td, log), g.
  - unfold bind. rewrite risk_body_cases.
    destruct (Qltb _ _) eqn:Hfire; [|apply IH].
    destruct (drawable r) eqn:Hdr; [apply IH|].
    exfalso. destruct Hr as [Hr|Hr]; [congruence|].
    apply Qltb_lt in Hfire.
    pose proof (random_sample_range g) as [Hu0 _].
    apply (Qlt_irrefl 0).
    eapply Qle_lt_trans; [exact Hu0|].
    eapply Qlt_le_trans; [exact Hfire | exact Hr].
Qed.

Lemma stage_loop_returns stages ks :
  Forall (fun k => exists st, lookup stages k = Some st /\
                    Forall safe_risk (Stage.risks st)) ks ->
  forall s g, exists s' g', for_each (stage_body stages) ks s g = (inr s', g').
Proof.
  induction 1 as [|k ks (st & Hlk & Hrs) _ IH]; intros [[td cd] log] g;
    cbn [for_each].
  - now exists (td, cd, log), g.
  - destruct (risk_loop_returns k _ Hrs (Stage.baseline st, td, log) g)
      as ([[sd1 td1] log1] & g1 & Hloop).
    unfold bind at 1, stage_body, getitem. rewrite Hlk.
    unfold bind, ret. rewrite Hloop. apply IH.
Qed.

Lemma simulate_project_returns stages g :
  dict_wf stages -> safe_configuration stages ->
  exists td dur log g',
    simulate_project stages g = (inr (td, dur, log), g').
Proof.
  intros Hwf Hall.
  destruct (stage_loop_returns stages (keys stages)) with (s := (0, 0, @nil Event.t)) (g := g)
    as ([[td dur] log] & g' & Hrun).
  - unfold keys. apply Forall_forall. intros k Hk.
    apply in_map_iff in Hk as ([k0 st] & <- & Hin).
    exists st. split; [now apply lookup_In|].
    now apply (proj1 (Forall_forall _ _) Hall (k0, st)).
  - now exists td, dur, log, g'.
Qed.

End Traces.

(** ** Facts about traces *)

Lemma outcomes_events_stage k rs : forall os e,
  In e (outcomes_events k rs os) -> Event.stage e = k.
Proof.
  induction rs as [|r rs IH]; intros [|[u [d|]] os] e; cbn; try contradiction.
  - intros [<-|Hin]; [reflexivity | eauto].
  - eauto.
Qed.

Lemma outcomes_events_origin k rs : forall os e,
  Forall2 outcome_ok rs os ->
  In e (outcomes_events k rs os) ->
  exists r, In r rs /\ e = fired_event k r (Event.delay e) /\
    fst (Risk.impact r) <= Event.delay e <= snd (Risk.impact r).
Proof.
  induction rs as [|r rs IH]; intros os e Hok; inversion Hok as [|? o ? os' Ho Hos];
    subst; cbn; [contradiction|].
  destruct o as [u [d|]]; cbn.
  - intros [<-|Hin].
    + exists r. destruct Ho as (_ & _ & _ & Hd). cbn in Hd.
      split; [now left|]. split; [reflexivity|]. exact Hd.
    + destruct (IH os' e Hos Hin) as (r' & Hr' & He). exists r'. auto.
  - intros Hin. destruct (IH os' e Hos Hin) as (r' & Hr' & He). exists r'. auto.
Qed.

Lemma outcomes_events_delay k rs : forall os,
  length rs = length os ->
  sumZ (map Event.delay (outcomes_events k rs os)) = outcomes_delay os.
Proof.
  unfold outcomes_delay, sumZ.
  induction rs as [|r rs IH]; intros [|[u [d|]] os] Hlen; try discriminate;
    cbn in *; try reflexivity.
  - unfold outcome_delay at 1; cbn. rewrite IH by lia. reflexivity.
  - unfold outcome_delay at 1; cbn. apply IH. lia.
Qed.

Lemma outcomes_events_length k rs : forall os,
  (length (outcomes_events k rs os) <= length rs)%nat.
Proof.
  induction rs as [|r rs IH]; intros [|[u [d|]] os]; cbn; try lia.
  - specialize (IH os). lia.
  - specialize (IH os). lia.
Qed.

Lemma events_of_stage_all k log :
  (forall e, In e log -> Event.stage e = k) -> events_of_stage k log = log.
Proof.
  unfold events_of_stage. induction log as [|e log IH]; intros Hall; cbn.
  - reflexivity.
  - rewrite (Hall e (or_introl eq_refl)), Z.eqb_refl. f_equal.
    apply IH. intros e' He'. apply Hall. now right.
Qed.

Lemma events_of_stage_none k log :
  (forall e, In e log -> Event.stage e <> k) -> events_of_stage k log = [].
Proof.
  unfold events_of_stage. induction log as [|e log IH]; intros Hall; cbn.
  - reflexivity.
  - destruct (Z.eqb_spec (Event.stage e) k) as [Heq|_].
    + exfalso. now apply (Hall e (or_introl eq_refl)).
    + apply IH. intros e' He'. apply Hall. now right.
Qed.

Lemma events_of_stage_app k l1 l2 :
  events_of_stage k (l1 ++ l2) = events_of_stage k l1 ++ events_of_stage k l2.
Proof. apply filter_app. Qed.

Lemma trace_log_stage (tr : trace) e :
  In e (trace_log tr) -> In (Event.stage e) (map (fun x => fst (fst x)) tr).
Proof.
  unfold trace_log. intros Hin.
  apply in_flat_map in Hin as (x & Hx & He).
  apply outcomes_events_stage in He. rewrite He.
  now apply (in_map (fun x => fst (fst x))).
Qed.

Lemma events_of_stage_trace (tr : trace) :
  NoDup (map (fun x => fst (fst x)) tr) ->
  forall x, In x tr ->
    events_of_stage (fst (fst x)) (trace_log tr)
      = outcomes_events (fst (fst x)) (Stage.risks (snd (fst x))) (snd x).
Proof.
  induction tr as [|y tr IH]; intros Hnd x Hin; [contradiction|].
  inversion Hnd as [|? ? Hfresh Hnd']; subst.
  change (trace_log (y :: tr))
    with (outcomes_events (fst (fst y)) (Stage.risks (snd (fst y))) (snd y)
            ++ trace_log tr).
  rewrite events_of_stage_app.
  destruct Hin as [->|Hin].
  - rewrite events_of_stage_all by apply outcomes_events_stage.
    rewrite (events_of_stage_none _ (trace_log tr)); [apply app_nil_r|].
    intros e He Heq. apply Hfresh. rewrite <- Heq. now apply trace_log_stage.
  - rewrite events_of_stage_none; [now apply IH|].
    intros e He Heq. apply outcomes_events_stage in He.
    apply Hfresh. rewrite <- He, Heq.
    now apply (in_map (fun x => fst (fst x))).
Qed.

Lemma trace_log_delay (tr : trace) :
  trace_ok tr -> sumZ (map Event.delay (trace_log tr)) = trace_delay tr.
Proof.
  unfold trace_ok, trace_delay, trace_log.
  induction 1 as [|x tr Hx _ IH]; [reflexivity|].
  cbn [flat_map map]. rewrite map_app, sumZ_app, IH.
  rewrite outcomes_events_delay by exact (Forall2_length Hx).
  reflexivity.
Qed.

Lemma trace_log_length (tr : trace) :
  (length (trace_log tr) <= total_risks (map fst tr))%nat.
Proof.
  unfold trace_log, total_risks.
  induction tr as [|x tr IH]; cbn [flat_map map]; [cbn; lia|].
  rewrite !length_app. cbn beta.
  pose proof (outcomes_events_length (fst (fst x)) (Stage.risks (snd (fst x)))
                (snd x)).
  lia.
Qed.

Lemma trace_keys (tr : trace) :
  map (fun x => fst (fst x)) tr = keys (map fst tr).
Proof. unfold keys. rewrite map_map. reflexivity. Qed.

Section Batch.
Context {G : Type} `{RandomState G}.

Lemma trial_body_inr stages x res reg g res' reg' g' :
  trial_body stages x (res, reg) g = (inr (res', reg'), g') ->
  exists r, simulate_project stages g = (inr r, g') /\
    res' = res ++ [summary r] /\ reg' = reg ++ run_log r.
Proof.
  unfold trial_body. intros Hrun.
  apply bind_inr in Hrun as ([[td dur] log] & g1 & Hsim & Hret).
  inversion Hret; subst. now exists (td, dur, log).
Qed.

Lemma batch_loop_inr stages xs : forall res reg g res' reg' g',
  for_each (trial_body stages) xs (res, reg) g = (inr (res', reg'), g') ->
  exists runs, length runs = length xs /\ in_sequence stages g runs g' /\
    res' = res ++ map summary runs /\ reg' = reg ++ flat_map run_log runs.
Proof.
  induction xs as [|x xs IH]; intros res reg g res' reg' g' Hrun.
  - cbn in Hrun. inversion Hrun; subst. exists [].
    cbn. now rewrite !app_nil_r.
  - cbn [for_each] in Hrun.
    apply bind_inr in Hrun as ([res1 reg1] & g1 & Hstep & Hrest).
    apply trial_body_inr in Hstep as (r & Hsim & -> & ->).
    apply IH in Hrest as (runs & Hlen & Hseq & -> & ->).
    exists (r :: runs). cbn [length map flat_map in_sequence].
    split; [lia|]. split; [now exists g1|].
    now rewrite <- !app_assoc.
Qed.

Lemma batch_loop_returns stages xs :
  (forall g, exists r g1, simulate_project stages g = (inr r, g1)) ->
  forall s g, exists s' g',
    for_each (trial_body stages) xs s g = (inr s', g').
Proof.
  intros Hsim. induction xs as [|x xs IH]; intros [res reg] g; cbn [for_each].
  - now exists (res, reg), g.
  - destruct (Hsim g) as ([[td dur] log] & g1 & Hrun).
    unfold bind at 1, trial_body. unfold bind, ret. rewrite Hrun. apply IH.
Qed.

Lemma run_simulation_inr stages n g results register g' :
  run_simulation stages n g = (inr (results, register), g') ->
  exists runs, length runs = Z.to_nat n /\ in_sequence stages g runs g' /\
    results = map summary runs /\ register = flat_map run_log runs.
Proof.
  unfold run_simulation. intros Hrun.
  apply batch_loop_inr in Hrun as (runs & Hlen & Hseq & -> & ->).
  rewrite range_length in Hlen. now exists runs.
Qed.

Lemma run_simulation_returns stages n g :
  dict_wf stages -> safe_configuration stages ->
  exists results register g',
    run_simulation stages n g = (inr (results, register), g').
Proof.
  intros Hwf Hall.
  destruct (batch_loop_returns stages (range n)) with (s := (@nil Row.t, @nil Event.t)) (g := g)
    as ([results register] & g' & Hrun).
  - intros g0.
    destruct (simulate_project_returns stages g0 Hwf Hall)
      as (td & dur & log & g1 & Hsim).
    now exists (td, dur, log), g1.
  - now exists results, register, g'.
Qed.

Lemma valid_safe stages :
  valid_configuration stages ->
  every_risk (fun r => snd (Risk.impact r) <= int64_max) stages ->
  safe_configuration stages.
Proof.
  intros [_ Hall] Hmax. unfold safe_configuration, every_risk in *.
  apply Forall_forall. intros kv Hkv.
  pose proof (proj1 (Forall_forall _ _) Hall kv Hkv) as [_ Hrs].
  pose proof (proj1 (Forall_forall _ _) Hmax kv Hkv) as Hms.
  apply Forall_forall. intros r Hr.
  destruct (proj1 (Forall_forall _ _) Hrs r Hr) as (_ & _ & Himp).
  pose proof (proj1 (Forall_forall _ _) Hms r Hr) as Hm.
  cbn beta in Hm. left. apply drawable_iff. pose proof int64_min_nonpos. lia.
Qed.

Lemma in_sequence_trace stages : forall runs g g',
  dict_wf stages -> in_sequence stages g runs g' ->
  Forall (fun r => exists tr : trace,
            map fst tr = stages /\ trace_ok tr /\
            fst (fst r) = trace_delay tr /\ snd (fst r) = trace_duration tr /\
            run_log r = trace_log tr) runs.
Proof.
  induction runs as [|[[td dur] log] runs IH]; intros g g' Hwf Hseq.
  - constructor.
  - destruct Hseq as (g1 & Hsim & Hrest). constructor; [|eauto].
    now apply simulate_project_trace with (g := g) (g' := g1).
Qed.

End Batch.

(** * The claims *)

(** C1.  A run that returns gives as [total_duration] the sum over the stages
    of the stage's baseline plus the delays of the events logged for that
    stage, and as [total_delay] the sum of the delays of all logged events;
    a stage without risk definitions has no event in the log and adds its
    baseline exactly. *)
Theorem simulate_project_totals {G : Type} `{RandomState G}
    (stages : Stages) (g : G) td dur log g' :
  dict_wf stages ->
  simulate_project stages g = (inr (td, dur, log), g') ->
  dur = sumZ (map (fun kv => stage_contribution (fst kv) (snd kv) log) stages)
  /\ td = sumZ (map Event.delay log)
  /\ (forall k st, In (k, st) stages -> Stage.risks st = [] ->
        events_of_stage k log = [] /\
        stage_contribution k st log = Stage.baseline st).
Proof.
  intros Hwf Hrun.
  destruct (simulate_project_trace stages g td dur log g' Hwf Hrun)
    as (tr & Hst & Hok & -> & -> & ->).
  assert (Hnd : NoDup (map (fun x => fst (fst x)) tr)).
  { rewrite trace_keys, Hst. exact Hwf. }
  assert (Hstage : forall x, In x tr ->
            stage_contribution (fst (fst x)) (snd (fst x)) (trace_log tr)
              = Stage.baseline (snd (fst x)) + outcomes_delay (snd x)).
  { intros x Hx. unfold stage_contribution.
    rewrite (events_of_stage_trace tr Hnd x Hx).
    rewrite outcomes_events_delay; [reflexivity|].
    apply (Forall2_length (proj1 (Forall_forall _ _) Hok x Hx)). }
  split; [|split].
  - rewrite <- Hst, map_map. unfold trace_duration. f_equal.
    apply map_ext_in. intros x Hx. cbn beta. now rewrite Hstage.
  - now rewrite trace_log_delay.
  - intros k st Hin Hnone. rewrite <- Hst in Hin.
    apply in_map_iff in Hin as (x & Hx & Hin).
    assert (Hev : events_of_stage k (trace_log tr) = []).
    { pose proof (events_of_stage_trace tr Hnd x Hin) as Hev.
      rewrite Hx in Hev; cbn [fst snd] in Hev. rewrite Hev, Hnone.
      reflexivity. }
    split; [exact Hev|].
    unfold stage_contribution. rewrite Hev. cbn. lia.
Qed.

Lemma simulate_project_totals_witness :
  exists td dur log g',
    dict_wf DEFAULT_STAGES /\
    simulate_project DEFAULT_STAGES demo_tape = (inr (td, dur, log), g') /\
    dur = sumZ (map (fun kv => stage_contribution (fst kv) (snd kv) log)
                    DEFAULT_STAGES)
    /\ td = sumZ (map Event.delay log)
    /\ (forall k st, In (k, st) DEFAULT_STAGES -> Stage.risks st = [] ->
          events_of_stage k log = [] /\
          stage_contribution k st log = Stage.baseline st).
Proof.
  do 4 eexists.
  assert (Hwf : dict_wf DEFAULT_STAGES) by solve_dict_wf.
  split; [exact Hwf|].
  split; [vm_compute; reflexivity|].
  eapply (simulate_project_totals DEFAULT_STAGES demo_tape _ _ _ _ Hwf).
  vm_compute; reflexivity.
Defined.

Lemma trace_log_origin (tr : trace) (e : Event.t) :
  trace_ok tr -> In e (trace_log tr) ->
  exists k st r, In (k, st) (map fst tr) /\ In r (Stage.risks st) /\
    e = fired_event k r (Event.delay e) /\
    fst (Risk.impact r) <= Event.delay e <= snd (Risk.impact r).
Proof.
  unfold trace_ok, trace_log. intros Hok Hin.
  apply in_flat_map in Hin as ([[k st] os] & Hx & He). cbn [fst snd] in He.
  pose proof (proj1 (Forall_forall _ _) Hok _ Hx) as Hos. cbn [fst snd] in Hos.
  destruct (outcomes_events_origin k _ os e Hos He) as (r & Hr & Heq & Hd).
  exists k, st, r. repeat split; try assumption; try lia.
  change (k, st) with (fst (k, st, os)). now apply in_map.
Qed.


(** C2, as stated, fails: [big_stages] passes every check of the Risk
    Model, yet its risk fires on the first sample and the integer draw on
    the range up to 2^63 raises [ValueError]; a batch of one trial returns
    no summary. *)
Lemma valid_configuration_beyond_int64_raises :
  valid_configuration big_stages /\ 1 <= 1 /\
  run_simulation big_stages 1 demo_tape
    = (inl ValueError, [5; w_max; 0; 7; 0; 0; w_max]) /\
  ~ (exists results register g',
       run_simulation big_stages 1 demo_tape = (inr (results, register), g')).
Proof.
  split.
  { split; [solve_dict_wf|].
    repeat constructor; cbn; try lia; try discriminate. }
  split; [lia|].
  assert (Hrun : run_simulation big_stages 1 demo_tape
                 = (inl ValueError, [5; w_max; 0; 7; 0; 0; w_max]))
    by (vm_compute; reflexivity).
  split; [exact Hrun|].
  intros (results & register & g' & Hret). rewrite Hrun in Hret. discriminate.
Qed.

(** C2, amended.  On a valid configuration whose maximal impacts are all
    64-bit integers and a trial count of at least 1 the batch returns; its
    summaries are as many as the trial count; they are, in order, the
    summaries of that many calls of the simulator made one after the other
    on the generator. *)
Theorem run_simulation_one_summary_per_trial {G : Type} `{RandomState G}
    (stages : Stages) (n : Z) (g : G) :
  valid_configuration stages -> impacts_fit_int64 stages -> 1 <= n ->
  exists results register g' runs,
    run_simulation stages n g = (inr (results, register), g') /\
    Z.of_nat (length results) = n /\
    in_sequence stages g runs g' /\
    Z.of_nat (length runs) = n /\
    (forall i r, nth_error runs i = Some r ->
                 nth_error results i = Some (summary r)).
Proof.
  intros Hvalid Hfit Hn.
  destruct (run_simulation_returns stages n g (proj1 Hvalid)
              (valid_safe stages Hvalid Hfit))
    as (results & register & g' & Hrun).
  destruct (run_simulation_inr stages n g results register g' Hrun)
    as (runs & Hlen & Hseq & -> & ->).
  exists (map summary runs), (flat_map run_log runs), g', runs.
  split; [exact Hrun|]. rewrite length_map, Hlen.
  split; [lia|]. split; [exact Hseq|]. split; [lia|].
  intros i r Hi. rewrite nth_error_map, Hi. reflexivity.
Qed.

Lemma valid_DEFAULT_STAGES : valid_configuration DEFAULT_STAGES.
Proof.
  split; [solve_dict_wf|].
  repeat constructor; cbn; try lia; try discriminate.
Qed.

Lemma fit_DEFAULT_STAGES : impacts_fit_int64 DEFAULT_STAGES.
Proof. repeat constructor; now vm_compute. Qed.

Lemma run_simulation_one_summary_per_trial_witness :
  valid_configuration DEFAULT_STAGES /\ impacts_fit_int64 DEFAULT_STAGES /\
  1 <= 3 /\
  exists results register g' runs,
    run_simulation DEFAULT_STAGES 3 demo_tape = (inr (results, register), g') /\
    Z.of_nat (length results) = 3 /\
    in_sequence DEFAULT_STAGES demo_tape runs g' /\
    Z.of_nat (length runs) = 3 /\
    (forall i r, nth_error runs i = Some r ->
                 nth_error results i = Some (summary r)).
Proof.
  split; [exact valid_DEFAULT_STAGES|]. split; [exact fit_DEFAULT_STAGES|].
  split; [lia|].
  apply run_simulation_one_summary_per_trial;
    [exact valid_DEFAULT_STAGES | exact fit_DEFAULT_STAGES | lia].
Defined.

(** C3, as stated, fails: over [coin_stages] and two trials, the tape on
    which only the first run fires and the tape on which only the second
    run fires give the same register, so no reading of the register tells
    the run. *)
Lemma register_does_not_identify_runs :
  ~ register_identifies_runs (G := tape) coin_stages 2.
Proof.
  intros [run_of Htag].
  set (e := Event.make 1 "funding" "high" 1 "reserve").
  assert (H0 : run_of [e] 0%nat = 0%nat).
  { refine (Htag [0; 0; w_max] [(1, 7, [e]); (0, 6, [])] [] _ eq_refl
                 0%nat (1, 7, [e]) 0%nat eq_refl _); [|cbn; lia].
    cbn [in_sequence]. eexists. split; [vm_compute; reflexivity|].
    eexists. split; [vm_compute; reflexivity|]. reflexivity. }
  assert (H1 : run_of [e] 0%nat = 1%nat).
  { refine (Htag [w_max; 0; 0] [(0, 6, []); (1, 7, [e])] [] _ eq_refl
                 1%nat (1, 7, [e]) 0%nat eq_refl _); [|cbn; lia].
    cbn [in_sequence]. eexists. split; [vm_compute; reflexivity|].
    eexists. split; [vm_compute; reflexivity|]. reflexivity. }
  congruence.
Qed.

(** C3, amended.  On a valid configuration whose maximal impacts are all
    64-bit integers and a trial count of at least 1 the batch returns and
    the risk register is the concatenation, in run order, of the logs of the
    runs; every record in it carries the number of its stage together with
    the type, severity and mitigation of the risk definition of that stage
    that fired.  It carries no mark of the run. *)
Theorem risk_register_is_concatenation {G : Type} `{RandomState G}
    (stages : Stages) (n : Z) (g : G) :
  valid_configuration stages -> impacts_fit_int64 stages -> 1 <= n ->
  exists results register g' runs,
    run_simulation stages n g = (inr (results, register), g') /\
    in_sequence stages g runs g' /\
    Z.of_nat (length runs) = n /\
    register = concat (map run_log runs) /\
    (forall e, In e register ->
       exists st r, lookup stages (Event.stage e) = Some st /\
         In r (Stage.risks st) /\
         e = fired_event (Event.stage e) r (Event.delay e)).
Proof.
  intros Hvalid Hfit Hn.
  destruct (run_simulation_returns stages n g (proj1 Hvalid)
              (valid_safe stages Hvalid Hfit))
    as (results & register & g' & Hrun).
  destruct (run_simulation_inr stages n g results register g' Hrun)
    as (runs & Hlen & Hseq & -> & ->).
  exists (map summary runs), (flat_map run_log runs), g', runs.
  split; [exact Hrun|]. split; [exact Hseq|]. split; [lia|].
  split; [apply flat_map_concat_map|].
  intros e He. apply in_flat_map in He as (r & Hr & He).
  pose proof (in_sequence_trace stages runs g g' (proj1 Hvalid) Hseq) as Htr.
  destruct (proj1 (Forall_forall _ _) Htr r Hr)
    as (tr & Hst & Hok & _ & _ & Hlog).
  rewrite Hlog in He.
  destruct (trace_log_origin tr e Hok He) as (k & st & rk & Hk & Hrk & Heq & _).
  rewrite Hst in Hk.
  assert (Hstage : Event.stage e = k) by (rewrite Heq; reflexivity).
  exists st, rk. rewrite Hstage.
  split; [apply lookup_In; [exact (proj1 Hvalid) | exact Hk]|]. auto.
Qed.

Lemma risk_register_is_concatenation_witness :
  valid_configuration DEFAULT_STAGES /\ impacts_fit_int64 DEFAULT_STAGES /\
  1 <= 2 /\
  exists results register g' runs,
    run_simulation DEFAULT_STAGES 2 demo_tape = (inr (results, register), g') /\
    in_sequence DEFAULT_STAGES demo_tape runs g' /\
    Z.of_nat (length runs) = 2 /\
    register = concat (map run_log runs) /\
    (forall e, In e register ->
       exists st r, lookup DEFAULT_STAGES (Event.stage e) = Some st /\
         In r (Stage.risks st) /\
         e = fired_event (Event.stage e) r (Event.delay e)).
Proof.
  split; [exact valid_DEFAULT_STAGES|]. split; [exact fit_DEFAULT_STAGES|].
  split; [lia|].
  apply risk_register_is_concatenation;
    [exact valid_DEFAULT_STAGES | exact fit_DEFAULT_STAGES | lia].
Defined.

Section Order.
Context {G : Type} `{RandomState G}.

Lemma risk_loop_shift k rs td log : forall sd a l g,
  for_each (risk_body k) rs (sd, td + a, log ++ l) g =
    match for_each (risk_body k) rs (sd, a, l) g with
    | (inr (sd', a', l'), g') => (inr (sd', td + a', log ++ l'), g')
    | (inl e, g') => (inl e, g')
    end.
Proof.
  induction rs as [|r rs IH]; intros sd a l g; cbn [for_each].
  - reflexivity.
  - unfold bind. rewrite !risk_body_cases. cbv zeta.
    destruct (Qltb _ _); [|apply IH].
    destruct (drawable r); [|reflexivity].
    rewrite <- Z.add_assoc, <- app_assoc. apply IH.
Qed.

Lemma stage_body_shift stages k td cd log a b l g :
  stage_body stages k (td + a, cd + b, log ++ l) g =
    shift td cd log (stage_body stages k (a, b, l) g).
Proof.
  unfold stage_body, getitem.
  destruct (lookup stages k) as [st|]; [|reflexivity].
  unfold bind at 1 3, ret at 1 3. unfold bind.
  rewrite risk_loop_shift.
  destruct (for_each _ _ (Stage.baseline st, a, l) g) as [[e|[[sd a'] l']] g'];
    [reflexivity|].
  unfold ret, shift. now rewrite Z.add_assoc.
Qed.

Lemma stage_loop_shift stages ks td cd log : forall a b l g,
  for_each (stage_body stages) ks (td + a, cd + b, log ++ l) g =
    shift td cd log (for_each (stage_body stages) ks (a, b, l) g).
Proof.
  induction ks as [|k ks IH]; intros a b l g; cbn [for_each].
  - reflexivity.
  - unfold bind. rewrite stage_body_shift.
    destruct (stage_body stages k (a, b, l) g) as [[e|[[a' b'] l']] g'];
      cbn [shift]; [reflexivity | apply IH].
Qed.

Lemma stage_loop_lookup_ext (A B : Stages) ks :
  (forall k, In k ks -> lookup A k = lookup B k) ->
  forall s g, for_each (stage_body A) ks s g = for_each (stage_body B) ks s g.
Proof.
  induction ks as [|k ks IH]; intros Hext s g; cbn [for_each].
  - reflexivity.
  - unfold bind.
    assert (Hk : stage_body A k s g = stage_body B k s g).
    { unfold stage_body, getitem. destruct s as [[td cd] log].
      now rewrite (Hext k (or_introl eq_refl)). }
    rewrite Hk. destruct (stage_body B k s g) as [[e|s1] g1]; [reflexivity|].
    apply IH. intros k' Hk'. apply Hext. now right.
Qed.

Lemma stage_body_lookup stages k st td cd log g :
  lookup stages k = Some st ->
  stage_body stages k (td, cd, log) g =
    match for_each (risk_body k) (Stage.risks st) (Stage.baseline st, td, log) g
    with
    | (inr (sd', td', log'), g') => (inr (td', cd + sd', log'), g')
    | (inl e, g') => (inl e, g')
    end.
Proof.
  intros Hlk. unfold stage_body, getitem. rewrite Hlk. unfold bind, ret.
  destruct (for_each _ _ _ g) as [[e|[[sd' td'] log']] g']; reflexivity.
Qed.

Lemma simulate_project_cons k st rest g :
  dict_wf ((k, st) :: rest) ->
  simulate_project ((k, st) :: rest) g
    = stage_then k st (simulate_project rest) g.
Proof.
  intros Hwf. inversion Hwf as [|? ? Hfresh Hnd]; subst.
  unfold simulate_project, stage_then, keys. cbn [map fst for_each].
  unfold bind.
  rewrite (stage_body_lookup _ k st)
    by (cbn [lookup]; now rewrite Z.eqb_refl).
  destruct (for_each (risk_body k) (Stage.risks st) (Stage.baseline st, 0, [])
              g) as [[e|[[sd td] log]] g1]; [reflexivity|].
  rewrite (stage_loop_lookup_ext ((k, st) :: rest) rest).
  - pose proof (stage_loop_shift rest (map fst rest) td (0 + sd) log 0 0 [] g1)
      as Hshift.
    rewrite Z.add_0_r, Z.add_0_r, app_nil_r in Hshift. rewrite Hshift.
    unfold shift, ret.
    destruct (for_each (stage_body rest) (map fst rest) (0, 0, []) g1)
      as [[e|[[td' cd'] log']] g2]; reflexivity.
  - intros k' Hk'. cbn [lookup].
    destruct (Z.eqb_spec k k') as [->|_]; [contradiction | reflexivity].
Qed.

End Order.

(** ** The firing rule *)


Section SamplingFacts.
Context {G : Type} `{RandomState G}.





End SamplingFacts.




Lemma ascending_sorted (stages : Stages) :
  StronglySorted Z.lt (keys stages) -> ascending stages = stages.
Proof.
  unfold keys, ascending.
  induction stages as [|kv stages IH]; cbn [map fold_right]; intros Hs.
  - reflexivity.
  - inversion Hs as [|? ? Hs' Hall]; subst. rewrite (IH Hs').
    destruct stages as [|kv' stages']; [reflexivity|].
    cbn [insert_by_key]. inversion Hall as [|? ? Hlt _]; subst.
    destruct (Z.leb_spec (fst kv) (fst kv')); [reflexivity | lia].
Qed.

(** C5, as stated, fails: over [swapped_stages], where stage 2 is supplied
    before stage 1, the first sample of the tape decides the risk of stage 2,
    which fires; had the stages been run in ascending order it would have
    decided the risk of stage 1. *)
Lemma stages_not_run_in_ascending_order :
  fst (simulate_project swapped_stages [0; 0; w_max])
    = inr (1, 13, [Event.make 2 "logistics" "medium" 1 "alternative transport"])
  /\ fst (simulate_project (ascending swapped_stages) [0; 0; w_max])
    = inr (1, 13, [Event.make 1 "funding" "high" 1 "reserve"])
  /\ simulate_project swapped_stages [0; 0; w_max]
     <> simulate_project (ascending swapped_stages) [0; 0; w_max].
Proof.
  split; [vm_compute; reflexivity|].
  split; [vm_compute; reflexivity|].
  vm_compute. discriminate.
Qed.

(** C5, amended.  The simulator runs the stages one after the other in the
    order in which the mapping holds them: the stage supplied first is run
    first on the generator, on fresh counters, and the remaining stages
    follow in the same way on the generator state it leaves; what they
    return is added up.  Stages supplied in ascending order of their numbers
    are therefore run in ascending order; nothing is sorted. *)
Theorem stages_run_in_supplied_order {G : Type} `{RandomState G}
    (k : Z) (st : Stage.t) (rest : Stages) (g : G) :
  dict_wf ((k, st) :: rest) ->
  simulate_project ((k, st) :: rest) g
    = stage_then k st (simulate_project rest) g
  /\ (StronglySorted Z.lt (keys ((k, st) :: rest)) ->
      ascending ((k, st) :: rest) = (k, st) :: rest).
Proof.
  intros Hwf. split.
  - now apply simulate_project_cons.
  - apply ascending_sorted.
Qed.

Lemma stages_run_in_supplied_order_witness :
  dict_wf DEFAULT_STAGES /\
  StronglySorted Z.lt (keys DEFAULT_STAGES) /\
  simulate_project DEFAULT_STAGES demo_tape
    = stage_then 1 (Stage.make "Planning" 6
                      [Risk.make "funding" (3602879701896397 # 18014398509481984)
                                 (1, 3) "high"
                                 "emergency budget allocation"])
                 (simulate_project (tl DEFAULT_STAGES)) demo_tape
  /\ ascending DEFAULT_STAGES = DEFAULT_STAGES.
Proof.
  assert (Hwf : dict_wf DEFAULT_STAGES) by solve_dict_wf.
  assert (Hs : StronglySorted Z.lt (keys DEFAULT_STAGES))
    by (repeat constructor; cbn; lia).
  split; [exact Hwf|]. split; [exact Hs|].
  pose proof (stages_run_in_supplied_order 1
                (Stage.make "Planning" 6
                   [Risk.make "funding" (3602879701896397 # 18014398509481984)
                                 (1, 3) "high"
                              "emergency budget allocation"])
                (tl DEFAULT_STAGES) demo_tape Hwf) as [Hrun Hasc].
  split; [exact Hrun | exact (Hasc Hs)].
Defined.

(** C7, as stated, fails: with a trial count of 0, or a negative one, the
    batch raises nothing and returns two empty collections. *)
Lemma run_simulation_accepts_trial_count_below_one :
  run_simulation DEFAULT_STAGES 0 demo_tape = (inr ([], []), demo_tape)
  /\ run_simulation DEFAULT_STAGES (-3) demo_tape = (inr ([], []), demo_tape)
  /\ ~ (exists e g', run_simulation DEFAULT_STAGES 0 demo_tape = (inl e, g')).
Proof.
  split; [reflexivity|]. split; [reflexivity|].
  intros (e & g' & Hraise). vm_compute in Hraise. discriminate.
Qed.

(** C7, amended.  For every configuration and every trial count below 1 the
    batch raises nothing: the simulator is not called, the generator is left
    as it was, and the two collections returned are empty. *)
Theorem run_simulation_below_one_trial_is_empty {G : Type} `{RandomState G}
    (stages : Stages) (n : Z) (g : G) :
  n < 1 -> run_simulation stages n g = (inr ([], []), g).
Proof.
  intros Hn. unfold run_simulation. now rewrite (range_nonpos n Hn).
Qed.

Lemma run_simulation_below_one_trial_is_empty_witness :
  -1 < 1 /\ run_simulation DEFAULT_STAGES (-1) demo_tape = (inr ([], []), demo_tape).
Proof.
  split; [lia|]. apply run_simulation_below_one_trial_is_empty. lia.
Defined.

Lemma flat_map_length_bound {A B} (f : A -> list B) (l : list A) (bound : nat) :
  Forall (fun a => (length (f a) <= bound)%nat) l ->
  (length (flat_map f l) <= length l * bound)%nat.
Proof.
  induction 1 as [|a l Ha _ IH]; cbn [flat_map length]; [lia|].
  rewrite length_app. cbn [Nat.mul]. lia.
Qed.

(** C10.  In a run every risk definition has exactly one outcome and at most
    one event, so the log of a run is no longer than the number of risk
    definitions of the configuration, and the register of a batch is no
    longer than the trial count times that number. *)
Theorem fired_events_bounded_by_risk_definitions {G : Type} `{RandomState G}
    (stages : Stages) (n : Z) (g : G) :
  dict_wf stages -> 0 <= n ->
  (forall td dur log g',
     simulate_project stages g = (inr (td, dur, log), g') ->
     (exists tr : trace,
        map fst tr = stages /\
        Forall (fun x => Forall2 outcome_ok (Stage.risks (snd (fst x))) (snd x))
               tr /\
        log = flat_map (fun x => outcomes_events (fst (fst x))
                                   (Stage.risks (snd (fst x))) (snd x)) tr) /\
     (length log <= total_risks stages)%nat)
  /\
  (forall results register g',
     run_simulation stages n g = (inr (results, register), g') ->
     Z.of_nat (length register) <= n * Z.of_nat (total_risks stages)).
Proof.
  intros Hwf Hn. split.
  - intros td dur log g' Hrun.
    destruct (simulate_project_trace stages g td dur log g' Hwf Hrun)
      as (tr & Hst & Hok & _ & _ & ->).
    split; [now exists tr|].
    rewrite <- Hst. apply trace_log_length.
  - intros results register g' Hrun.
    destruct (run_simulation_inr stages n g results register g' Hrun)
      as (runs & Hlen & Hseq & _ & ->).
    assert (Hbound : (length (flat_map run_log runs)
                        <= length runs * total_risks stages)%nat).
    { apply flat_map_length_bound.
      eapply Forall_impl;
        [|exact (in_sequence_trace stages runs g g' Hwf Hseq)].
      intros r (tr & Hst & _ & _ & _ & ->).
      rewrite <- Hst. apply trace_log_length. }
    rewrite Hlen in Hbound. apply Nat2Z.inj_le in Hbound.
    rewrite Nat2Z.inj_mul, Z2Nat.id in Hbound by exact Hn. exact Hbound.
Qed.

Lemma fired_events_bounded_by_risk_definitions_witness :
  dict_wf DEFAULT_STAGES /\ 0 <= 2 /\
  (forall td dur log g',
     simulate_project DEFAULT_STAGES demo_tape = (inr (td, dur, log), g') ->
     (length log <= total_risks DEFAULT_STAGES)%nat)
  /\
  (forall results register g',
     run_simulation DEFAULT_STAGES 2 demo_tape = (inr (results, register), g') ->
     Z.of_nat (length register) <= 2 * Z.of_nat (total_risks DEFAULT_STAGES)).
Proof.
  assert (Hwf : dict_wf DEFAULT_STAGES) by solve_dict_wf.
  split; [exact Hwf|]. split; [lia|].
  pose proof (fired_events_bounded_by_risk_definitions DEFAULT_STAGES 2
                demo_tape Hwf ltac:(lia)) as [Hrun Hbatch].
  split; [|exact Hbatch].
  intros td dur log g' Hsim. exact (proj2 (Hrun td dur log g' Hsim)).
Defined.










Lemma batch_runs {G : Type} `{RandomState G} (stages : Stages) (n : Z) (g : G) :
  dict_wf stages -> safe_configuration stages ->
  exists runs g',
    run_simulation stages n g
      = (inr (map summary runs, flat_map run_log runs), g') /\
    length runs = Z.to_nat n /\
    Forall (fun r => exists tr : trace,
              map fst tr = stages /\ trace_ok tr /\
              fst (fst r) = trace_delay tr /\ snd (fst r) = trace_duration tr /\
              run_log r = trace_log tr) runs.
Proof.
  intros Hwf Hsafe.
  destruct (run_simulation_returns stages n g Hwf Hsafe)
    as (results & register & g' & Hrun).
  destruct (run_simulation_inr stages n g results register g' Hrun)
    as (runs & Hlen & Hseq & -> & ->).
  exists runs, g'. split; [exact Hrun|]. split; [exact Hlen|].
  exact (in_sequence_trace stages runs g g' Hwf Hseq).
Qed.




(** ** Determinism in the generator stream *)

Section Stream.
Context {G : Type} `{RandomState G}.

Lemma same_stream_S k : forall g1 g2,
  same_stream (S k) g1 g2 -> same_stream k g1 g2.
Proof.
  induction k as [|k IH]; intros g1 g2 Hs; [exact I|].
  destruct Hs as (Hu & Hnext & Hint).
  split; [exact Hu|]. split; [now apply IH|].
  intros low high Hlt. destruct (Hint low high Hlt) as [Hv Hrest].
  split; [exact Hv | now apply IH].
Qed.

Lemma same_stream_drop c k g1 g2 :
  same_stream (c + k) g1 g2 -> same_stream k g1 g2.
Proof.
  induction c as [|c IH]; cbn [Nat.add]; [auto|].
  intros Hs. apply IH. now apply same_stream_S.
Qed.

Lemma agrees_weaken {A} c c' (m : M G A) :
  (c <= c')%nat -> agrees c m -> agrees c' m.
Proof.
  intros Hle Hm k g1 g2 Hs.
  replace (c' + k)%nat with (c + ((c' - c) + k))%nat in Hs by lia.
  destruct (Hm _ g1 g2 Hs) as [Hr Hrest].
  split; [exact Hr | now apply same_stream_drop in Hrest].
Qed.

Lemma agrees_ret {A} (a : A) : agrees 0 (ret a).
Proof. intros k g1 g2 Hs. now split. Qed.

Lemma agrees_raise {A} (e : exn) : agrees 0 (@raise G A e).
Proof. intros k g1 g2 Hs. now split. Qed.

Lemma agrees_bind {A B} c1 c2 (m : M G A) (f : A -> M G B) :
  agrees c1 m -> (forall a, agrees c2 (f a)) -> agrees (c1 + c2) (bind m f).
Proof.
  intros Hm Hf k g1 g2 Hs.
  rewrite <- Nat.add_assoc in Hs.
  destruct (Hm _ g1 g2 Hs) as [Hr Hrest]. unfold bind.
  destruct (m g1) as [[e1|a1] g1'], (m g2) as [[e2|a2] g2'];
    cbn [fst snd] in *; try discriminate.
  - injection Hr as ->.
    split; [reflexivity | now apply same_stream_drop in Hrest].
  - injection Hr as ->. now apply Hf.
Qed.

Lemma agrees_ext {A} c (m m' : M G A) :
  (forall g, m g = m' g) -> agrees c m -> agrees c m'.
Proof. intros Hext Hm k g1 g2 Hs. rewrite <- !Hext. now apply Hm. Qed.

Lemma agrees_random : agrees 1 np_random_random.
Proof.
  intros k g1 g2 (Hu & Hnext & _). unfold np_random_random.
  destruct (random_sample g1) as [u1 g1'], (random_sample g2) as [u2 g2'].
  cbn [fst snd] in *. now subst.
Qed.

Lemma agrees_randint low high : agrees 1 (np_random_randint low high).
Proof.
  intros k g1 g2 Hs. unfold np_random_randint.
  destruct ((int64_min <=? low) && (high <=? int64_max + 1)) eqn:Hbounds;
    cbn [andb]; [|split; [reflexivity | now apply same_stream_S]].
  destruct (Z.ltb_spec low high) as [Hlt|_].
  - destruct Hs as (_ & _ & Hint). destruct (Hint low high Hlt) as [Hv Hrest].
    destruct (random_integer low high g1) as [v1 g1'],
             (random_integer low high g2) as [v2 g2'].
    cbn [fst snd] in *. now subst.
  - split; [reflexivity | now apply same_stream_S].
Qed.

Lemma agrees_for_each {A S} (cost : A -> nat) (body : A -> S -> M G S) :
  (forall x s, agrees (cost x) (body x s)) ->
  forall xs s, agrees (list_sum (map cost xs)) (for_each body xs s).
Proof.
  intros Hbody. induction xs as [|x xs IH]; intros s; cbn [for_each map list_sum].
  - apply agrees_ret.
  - apply agrees_bind; [apply Hbody | exact IH].
Qed.

Lemma agrees_risk_body k r s : agrees 2 (risk_body k r s).
Proof.
  destruct s as [[sd td] log]. unfold risk_body.
  apply (agrees_bind 1 1); [apply agrees_random|].
  intros u. destruct (Qltb u (Risk.probability r)).
  - apply (agrees_bind 1 0); [apply agrees_randint|].
    intros d. apply agrees_ret.
  - apply (agrees_weaken 0); [lia | apply agrees_ret].
Qed.

Lemma list_sum_constant {A} (c : nat) (l : list A) :
  list_sum (map (fun _ => c) l) = (length l * c)%nat.
Proof.
  induction l as [|a l IH]; [reflexivity|].
  cbn [map list_sum length Nat.mul fold_right]. rewrite <- IH. reflexivity.
Qed.

Lemma agrees_stage_body stages k s :
  agrees (draws_of_stage stages k) (stage_body stages k s).
Proof.
  destruct s as [[td cd] log]. unfold stage_body, getitem, draws_of_stage.
  destruct (lookup stages k) as [st|]; [|apply agrees_raise].
  apply (agrees_ext _
           (' (stage_duration, total_delay, risk_log) <-
              for_each (risk_body k) (Stage.risks st)
                       (Stage.baseline st, td, log) ;;
            ret (total_delay, cd + stage_duration, risk_log)));
    [reflexivity|].
  apply (agrees_weaken (list_sum (map (fun _ => 2%nat) (Stage.risks st)) + 0)).
  - rewrite list_sum_constant. lia.
  - apply agrees_bind.
    + apply agrees_for_each. intros r s. apply agrees_risk_body.
    + intros [[sd' td'] log']. apply agrees_ret.
Qed.

Lemma agrees_simulate_project stages :
  agrees (max_draws stages) (simulate_project stages).
Proof.
  unfold simulate_project, max_draws. apply agrees_for_each.
  intros k s. apply agrees_stage_body.
Qed.

Lemma agrees_run_simulation stages n :
  agrees (Z.to_nat n * max_draws stages) (run_simulation stages n).
Proof.
  unfold run_simulation.
  rewrite <- range_length, <- (list_sum_constant (max_draws stages)).
  apply agrees_for_each. intros x [results register]. unfold trial_body.
  apply (agrees_weaken (max_draws stages + 0)); [lia|].
  apply agrees_bind; [apply agrees_simulate_project|].
  intros [[delay duration] risks]. apply agrees_ret.
Qed.

(** A generator agrees with itself: two generators in the same state, as
    after setting one seed, deliver the same draws. *)
Lemma same_stream_refl k : forall g, same_stream k g g.
Proof. induction k as [|k IH]; intros g; cbn; auto. Qed.

End Stream.

Lemma next_word_nth (g : tape) : next_word g = (nth 0 g 0, tl g).
Proof. now destruct g. Qed.

Lemma nth_tl (i : nat) (g : tape) : nth i (tl g) 0 = nth (S i) g 0.
Proof. destruct g; [now destruct i | reflexivity]. Qed.

(** Two tapes whose first [k] words agree deliver the same next [k] draws. *)
Lemma tape_same_stream k : forall g1 g2 : tape,
  (forall i, (i < k)%nat -> nth i g1 0 = nth i g2 0) ->
  same_stream k g1 g2.
Proof.
  induction k as [|k IH]; intros g1 g2 Hw; [exact I|].
  assert (Htl : same_stream k (tl g1) (tl g2)).
  { apply IH. intros i Hi. rewrite !nth_tl. apply Hw. lia. }
  cbn [same_stream random_sample random_integer tape_RandomState].
  unfold tape_sample, tape_integer. rewrite !next_word_nth.
  cbn [fst snd]. rewrite (Hw 0%nat ltac:(lia)).
  repeat split; auto.
Qed.

(** C8.  The batch is a function of its inputs and of the draws the
    generator delivers: on the same configuration and trial count, two
    generators that deliver the same draws (as two generators set from one
    seed do) make the batch return the same summaries and the same register,
    or raise the same exception.  The draws that matter are at most two per
    risk definition and run. *)
Theorem run_simulation_determined_by_stream {G : Type} `{RandomState G}
    (stages : Stages) (n : Z) (g1 g2 : G) :
  same_stream (Z.to_nat n * max_draws stages) g1 g2 ->
  fst (run_simulation stages n g1) = fst (run_simulation stages n g2).
Proof.
  intros Hs.
  apply (agrees_run_simulation stages n 0%nat g1 g2).
  now rewrite Nat.add_0_r.
Qed.

Lemma run_simulation_determined_by_stream_witness :
  same_stream (Z.to_nat 2 * max_draws coin_stages)
              [0; 0; w_max] [0; 0; w_max; 0; 9; 9] /\
  fst (run_simulation coin_stages 2 [0; 0; w_max])
    = fst (run_simulation coin_stages 2 [0; 0; w_max; 0; 9; 9]).
Proof.
  assert (Hs : same_stream (Z.to_nat 2 * max_draws coin_stages)
                           [0; 0; w_max] [0; 0; w_max; 0; 9; 9]).
  { apply tape_same_stream. intros i Hi.
    change (Z.to_nat 2 * max_draws coin_stages)%nat with 4%nat in Hi.
    do 4 (destruct i as [|i]; [reflexivity|]). lia. }
  split; [exact Hs|].
  exact (run_simulation_determined_by_stream coin_stages 2 _ _ Hs).
Defined.

Lemma setitem_keys (d : Stages) (k : Z) (v : Stage.t) (k' : Z) :
  In k' (keys (setitem d k v)) <-> In k' (keys d) \/ k' = k.
Proof.
  unfold keys. induction d as [|[k0 v0] d IH]; cbn [setitem map fst In].
  - intuition.
  - destruct (Z.eqb_spec k0 k) as [->|Hne]; cbn [map fst In].
    + intuition.
    + rewrite IH. intuition.
Qed.

Lemma setitem_wf (d : Stages) (k : Z) (v : Stage.t) :
  dict_wf d -> dict_wf (setitem d k v).
Proof.
  unfold dict_wf. induction d as [|[k0 v0] d IH]; intros Hnd.
  - cbn. constructor; [intros [] | constructor].
  - inversion Hnd as [|? ? Hfresh Hnd']; subst. cbn [setitem].
    destruct (Z.eqb_spec k0 k) as [->|Hne].
    + now constructor.
    + change (NoDup (k0 :: keys (setitem d k v))). constructor; [|now apply IH].
      rewrite setitem_keys. intros [Hin|Heq]; [now apply Hfresh | congruence].
Qed.

Lemma setitem_Forall (P : Stage.t -> Prop) (d : Stages) (k : Z) (v : Stage.t) :
  Forall (fun kv => P (snd kv)) d -> P v ->
  Forall (fun kv => P (snd kv)) (setitem d k v).
Proof.
  induction 1 as [|[k0 v0] d Hhd Htl IH]; intros Hv; cbn [setitem].
  - now repeat constructor.
  - destruct (k0 =? k); constructor; auto.
Qed.

Section ControlsFacts.
Context {U : Type} `{Streamlit U}.

Lemma control_risk_inr stage_num ir rs u rs' u' :
  control_risk stage_num ir rs u = (inr rs', u') ->
  exists r', controlled_risk r' /\ rs' = rs ++ [r'].
Proof.
  destruct ir as [i r]. unfold control_risk. intros Hrun.
  apply bind_inr in Hrun as (p & u1 & Hp & Hrun).
  apply bind_inr in Hrun as (lo & u2 & Hlo & Hrun).
  apply bind_inr in Hrun as (hi & u3 & Hhi & Hrun).
  unfold st_slider in Hp. unfold st_number_input in Hlo, Hhi.
  inversion Hp as [[Hp' Hu1]]; inversion Hlo as [[Hlo' Hu2]];
    inversion Hhi as [[Hhi' Hu3]]; inversion Hrun; subst.
  apply slider_range in Hp' as [Hp0 Hp1].
  apply number_input_range in Hlo'. apply number_input_range in Hhi'.
  eexists. split; [|reflexivity].
  unfold controlled_risk; cbn. repeat split; try assumption; lia.
Qed.

Lemma control_risks_inr stage_num irs : forall rs u rs' u',
  Forall controlled_risk rs ->
  for_each (control_risk stage_num) irs rs u = (inr rs', u') ->
  Forall controlled_risk rs'.
Proof.
  induction irs as [|ir irs IH]; intros rs u rs' u' Hrs Hrun.
  - cbn in Hrun. now inversion Hrun; subst.
  - cbn [for_each] in Hrun.
    apply bind_inr in Hrun as (rs1 & u1 & Hstep & Hrest).
    apply control_risk_inr in Hstep as (r' & Hr' & ->).
    apply (IH _ _ _ _ (proj2 (Forall_app _ _ _) (conj Hrs (Forall_cons _ Hr' (Forall_nil _)))) Hrest).
Qed.

Lemma control_stage_inr defaults stage_num d tb u d' tb' u' :
  controlled_configuration d ->
  control_stage defaults stage_num (d, tb) u = (inr (d', tb'), u') ->
  controlled_configuration d'.
Proof.
  intros [Hwf Hall]. unfold control_stage. intros Hrun.
  apply bind_inr in Hrun as (stage & u1 & _ & Hrun).
  apply bind_inr in Hrun as (b & u2 & Hb & Hrun).
  apply bind_inr in Hrun as (rs & u3 & Hrs & Hrun).
  inversion Hrun; subst; clear Hrun.
  unfold st_number_input in Hb. inversion Hb as [[Hb' Hu]].
  apply number_input_range in Hb'.
  apply control_risks_inr in Hrs; [|constructor].
  split; [now apply setitem_wf|].
  apply (setitem_Forall controlled_stage); [exact Hall|].
  split; [exact Hb' | exact Hrs].
Qed.

Lemma control_stages_inr defaults ks : forall d tb u d' tb' u',
  controlled_configuration d ->
  for_each (control_stage defaults) ks (d, tb) u = (inr (d', tb'), u') ->
  controlled_configuration d'.
Proof.
  induction ks as [|k ks IH]; intros d tb u d' tb' u' Hd Hrun.
  - cbn in Hrun. now inversion Hrun; subst.
  - cbn [for_each] in Hrun.
    apply bind_inr in Hrun as ([d1 tb1] & u1 & Hstep & Hrest).
    apply control_stage_inr in Hstep; [|exact Hd].
    exact (IH _ _ _ _ _ _ Hstep Hrest).
Qed.

(** What the controls let through passes the checks of the Risk Model. *)
Lemma controlled_valid (stages : Stages) :
  controlled_configuration stages -> valid_configuration stages.
Proof.
  intros [Hwf Hall]. split; [exact Hwf|].
  eapply Forall_impl; [|exact Hall].
  intros kv [Hb Hrs]. split; [lia|].
  eapply Forall_impl; [|exact Hrs].
  intros r (Hp0 & Hp1 & Himp & _). now repeat split.
Qed.

End ControlsFacts.

Example create_stage_controls_first_render :
  create_stage_controls first_render = (inr (DEFAULT_STAGES, 36), first_render).
Proof. vm_compute. reflexivity. Qed.

Example create_stage_controls_refuses_min_above_default_max :
  fst (create_stage_controls funding_min_5) = inl StreamlitAPIException.
Proof. vm_compute. reflexivity. Qed.

Section ControlsCalls.
Context {U : Type} `{Streamlit U}.
















End ControlsCalls.




(** * Further properties of the engine and of the controls *)

(** ** Totals of a run *)

Lemma sumZ_cons (a : Z) (l : list Z) : sumZ (a :: l) = a + sumZ l.
Proof. reflexivity. Qed.

Lemma trace_duration_split (tr : trace) :
  trace_duration tr = total_baseline (map fst tr) + trace_delay tr.
Proof.
  unfold trace_duration, total_baseline, trace_delay, sumZ.
  induction tr as [|x tr IH]; cbn [map fold_right]; [reflexivity|].
  rewrite IH. lia.
Qed.

Lemma definitions_cons (k : Z) (st : Stage.t) (rest : Stages) :
  definitions ((k, st) :: rest)
    = map (fun r => (k, r)) (Stage.risks st) ++ definitions rest.
Proof. reflexivity. Qed.

Lemma definitions_length (stages : Stages) :
  length (definitions stages) = total_risks stages.
Proof.
  unfold definitions, total_risks.
  induction stages as [|kv stages IH]; cbn [flat_map]; [reflexivity|].
  now rewrite !length_app, length_map, IH.
Qed.

Lemma outcomes_delay_bounds rs : forall os,
  Forall impact_ordered rs -> Forall2 outcome_ok rs os ->
  0 <= outcomes_delay os <= sumZ (map (fun r => snd (Risk.impact r)) rs).
Proof.
  unfold outcomes_delay, sumZ.
  induction rs as [|r rs IH]; intros os Hrs Hok;
    inversion Hok as [|? o ? os' Ho Hos]; subst; [cbn; lia|].
  inversion Hrs as [|? ? Hr Hrs']; subst.
  specialize (IH os' Hrs' Hos). unfold impact_ordered in Hr.
  cbn [map fold_right]. unfold outcome_delay at 1 3.
  destruct o as [u [d|]]; destruct Ho as (_ & _ & Hfire); cbn [fst snd] in *.
  - destruct Hfire as [_ Hd]. lia.
  - lia.
Qed.

Lemma trace_delay_bounds (tr : trace) :
  every_risk impact_ordered (map fst tr) -> trace_ok tr ->
  0 <= trace_delay tr <= max_total_delay (map fst tr).
Proof.
  unfold every_risk, trace_ok, trace_delay, max_total_delay.
  induction tr as [|[[k st] os] tr IH]; intros Hrs Hok; [cbn; lia|].
  cbn [map fst snd] in Hrs.
  inversion Hrs as [|? ? Hr Hrs']; inversion Hok as [|? ? Ho Hos]; subst.
  cbn [fst snd] in *. specialize (IH Hrs' Hos).
  pose proof (outcomes_delay_bounds (Stage.risks st) os Hr Ho) as Hb.
  cbn [map fst snd]. rewrite definitions_cons, map_app, sumZ_app, map_map.
  cbn [snd]. rewrite sumZ_cons. lia.
Qed.

(** X1.  The duration a run returns is the sum of the baselines of the
    stages plus the delay it returns. *)
Theorem simulate_project_duration_is_baseline_plus_delay
    {G : Type} `{RandomState G} (stages : Stages) (g : G) td dur log g' :
  dict_wf stages ->
  simulate_project stages g = (inr (td, dur, log), g') ->
  dur = total_baseline stages + td.
Proof.
  intros Hwf Hrun.
  destruct (simulate_project_trace stages g td dur log g' Hwf Hrun)
    as (tr & Hst & _ & -> & -> & _).
  rewrite <- Hst. apply trace_duration_split.
Qed.

Lemma simulate_project_duration_is_baseline_plus_delay_witness :
  exists td dur log g',
    dict_wf DEFAULT_STAGES /\
    simulate_project DEFAULT_STAGES demo_tape = (inr (td, dur, log), g') /\
    dur = total_baseline DEFAULT_STAGES + td.
Proof.
  do 4 eexists.
  assert (Hwf : dict_wf DEFAULT_STAGES) by solve_dict_wf.
  split; [exact Hwf|]. split; [vm_compute; reflexivity|].
  eapply (simulate_project_duration_is_baseline_plus_delay
            DEFAULT_STAGES demo_tape _ _ _ _ Hwf).
  vm_compute; reflexivity.
Defined.

(** X2.  When every risk has [0 <= impact_min <= impact_max], the delay a
    run returns lies between 0 and the sum of the maximal impacts of all
    risk definitions, and the duration between the sum of the baselines and
    that sum plus the maximal impacts. *)
Theorem simulate_project_delay_bounds
    {G : Type} `{RandomState G} (stages : Stages) (g : G) td dur log g' :
  dict_wf stages -> every_risk impact_ordered stages ->
  simulate_project stages g = (inr (td, dur, log), g') ->
  0 <= td <= max_total_delay stages /\
  total_baseline stages <= dur <= total_baseline stages + max_total_delay stages.
Proof.
  intros Hwf Hrs Hrun.
  destruct (simulate_project_trace stages g td dur log g' Hwf Hrun)
    as (tr & Hst & Hok & -> & -> & _).
  rewrite <- Hst in Hrs |- *.
  pose proof (trace_delay_bounds tr Hrs Hok) as Hb.
  rewrite trace_duration_split. lia.
Qed.

Lemma every_risk_ordered_DEFAULT_STAGES :
  every_risk impact_ordered DEFAULT_STAGES.
Proof. repeat constructor; cbn; lia. Qed.

Lemma simulate_project_delay_bounds_witness :
  exists td dur log g',
    dict_wf DEFAULT_STAGES /\ every_risk impact_ordered DEFAULT_STAGES /\
    simulate_project DEFAULT_STAGES demo_tape = (inr (td, dur, log), g') /\
    0 <= td <= 16 /\ 36 <= dur <= 36 + 16.
Proof.
  do 4 eexists.
  assert (Hwf : dict_wf DEFAULT_STAGES) by solve_dict_wf.
  split; [exact Hwf|]. split; [exact every_risk_ordered_DEFAULT_STAGES|].
  split; [vm_compute; reflexivity|].
  eapply (simulate_project_delay_bounds DEFAULT_STAGES demo_tape _ _ _ _ Hwf
            every_risk_ordered_DEFAULT_STAGES).
  vm_compute; reflexivity.
Defined.

(** ** Exceptions of a run and of a batch *)

Lemma lookup_key (stages : Stages) (k : Z) :
  In k (keys stages) -> exists st, lookup stages k = Some st.
Proof.
  unfold keys. induction stages as [|[k0 v0] stages IH]; cbn [map fst In lookup].
  - contradiction.
  - intros [->|Hin].
    + rewrite Z.eqb_refl. now exists v0.
    + destruct (k0 =? k); [now exists v0 | now apply IH].
Qed.

Section Raises.
Context {G : Type} `{RandomState G}.

Lemma bind_inl {A B} (m : M G A) (k : A -> M G B) g e g' :
  bind m k g = (inl e, g') ->
  m g = (inl e, g') \/ exists a g1, m g = (inr a, g1) /\ k a g1 = (inl e, g').
Proof.
  unfold bind. destruct (m g) as [[e1|a] g1]; intros Hk.
  - left. injection Hk as -> ->. reflexivity.
  - right. now exists a, g1.
Qed.

Lemma risk_body_inl k r s g e g' :
  risk_body k r s g = (inl e, g') ->
  e = ValueError /\ drawable r = false /\
  (0 < Risk.probability r)%Q /\ g' = snd (random_sample g).
Proof.
  destruct s as [[sd td] log]. rewrite risk_body_cases. cbv zeta.
  pose proof (random_sample_range g) as [Hu0 _].
  destruct (Qltb _ _) eqn:Hfire; [|discriminate].
  destruct (drawable r) eqn:Hdr; [discriminate|].
  intros [= <- <-]. apply Qltb_lt in Hfire.
  repeat split; try assumption; try reflexivity.
  eapply Qle_lt_trans; eassumption.
Qed.

Lemma risk_loop_inl k rs : forall s g e g',
  for_each (risk_body k) rs s g = (inl e, g') ->
  e = ValueError /\
  exists r, In r rs /\ drawable r = false /\ (0 < Risk.probability r)%Q.
Proof.
  induction rs as [|r rs IH]; intros s g e g' Hrun; [discriminate|].
  cbn [for_each] in Hrun.
  apply bind_inl in Hrun as [Hstep | (s1 & g1 & _ & Hrest)].
  - apply risk_body_inl in Hstep as (-> & Hgt & Hp & _).
    split; [reflexivity|]. exists r. split; [now left | auto].
  - apply IH in Hrest as (-> & r' & Hin & Hr').
    split; [reflexivity|]. exists r'. split; [now right | exact Hr'].
Qed.

Lemma stage_loop_inl stages ks : forall s g e g',
  (forall k, In k ks -> exists st, lookup stages k = Some st) ->
  for_each (stage_body stages) ks s g = (inl e, g') ->
  e = ValueError /\
  exists k st r, In k ks /\ lookup stages k = Some st /\
    In r (Stage.risks st) /\
    drawable r = false /\ (0 < Risk.probability r)%Q.
Proof.
  induction ks as [|k ks IH]; intros s g e g' Hks Hrun; [discriminate|].
  cbn [for_each] in Hrun.
  apply bind_inl in Hrun as [Hstep | (s1 & g1 & _ & Hrest)].
  - destruct (Hks k (or_introl eq_refl)) as [st Hlk].
    destruct s as [[td cd] log].
    rewrite (stage_body_lookup stages k st td cd log g Hlk) in Hstep.
    destruct (for_each (risk_body k) (Stage.risks st) (Stage.baseline st, td, log) g)
      as [[e1|[[sd' td'] log']] g1] eqn:Hloop; [|discriminate].
    injection Hstep as <- <-.
    apply risk_loop_inl in Hloop as (-> & r & Hin & Hr).
    split; [reflexivity|]. exists k, st, r.
    split; [now left|]. split; [exact Hlk|]. split; [exact Hin | exact Hr].
  - apply IH in Hrest as (-> & k' & st & r & Hk' & Hrest);
      [|intros k0 Hk0; apply Hks; now right].
    split; [reflexivity|]. exists k', st, r. split; [now right | exact Hrest].
Qed.

Lemma batch_loop_inl stages xs : forall res reg g e g',
  for_each (trial_body stages) xs (res, reg) g = (inl e, g') ->
  exists runs g1,
    (length runs < length xs)%nat /\ in_sequence stages g runs g1 /\
    simulate_project stages g1 = (inl e, g').
Proof.
  induction xs as [|x xs IH]; intros res reg g e g' Hrun; [discriminate|].
  cbn [for_each] in Hrun.
  apply bind_inl in Hrun as [Hstep | ([res1 reg1] & g1 & Hstep & Hrest)].
  - unfold trial_body in Hstep.
    apply bind_inl in Hstep as [Hsim | ([[td dur] log] & g2 & _ & Hret)];
      [|discriminate].
    exists [], g. cbn [length in_sequence]. split; [lia|]. now split.
  - apply trial_body_inr in Hstep as (r & Hsim & _ & _).
    apply IH in Hrest as (runs & g2 & Hlen & Hseq & Hfail).
    exists (r :: runs), g2. cbn [length in_sequence].
    split; [lia|]. split; [|exact Hfail]. now exists g1.
Qed.

End Raises.

Lemma drawable_false (r : Risk.t) :
  drawable r = false ->
  snd (Risk.impact r) < fst (Risk.impact r) \/
  fst (Risk.impact r) < int64_min \/ int64_max < snd (Risk.impact r).
Proof.
  intros Hdr.
  destruct (Z.le_gt_cases (fst (Risk.impact r)) (snd (Risk.impact r)));
    [|lia].
  destruct (Z.le_gt_cases int64_min (fst (Risk.impact r))); [|lia].
  destruct (Z.le_gt_cases (snd (Risk.impact r)) int64_max); [|lia].
  assert (Ht : drawable r = true) by (apply drawable_iff; auto).
  congruence.
Qed.

(** X3.  A run raises nothing but [ValueError], never [KeyError], and it
    raises only over a configuration that holds a risk of positive
    probability whose impact range the integer draw refuses:
    [impact_min > impact_max], [impact_min] below the 64-bit integers or
    [impact_max] above them. *)
Theorem simulate_project_raises_only_on_refused_range
    {G : Type} `{RandomState G} (stages : Stages) (g : G) e g' :
  simulate_project stages g = (inl e, g') ->
  e = ValueError /\
  exists k st r, lookup stages k = Some st /\ In r (Stage.risks st) /\
    (0 < Risk.probability r)%Q /\
    (snd (Risk.impact r) < fst (Risk.impact r) \/
     fst (Risk.impact r) < int64_min \/ int64_max < snd (Risk.impact r)).
Proof.
  unfold simulate_project. intros Hrun.
  apply stage_loop_inl in Hrun as (-> & k & st & r & _ & Hlk & Hin & Hdr & Hp).
  - split; [reflexivity|]. exists k, st, r.
    split; [exact Hlk|]. split; [exact Hin|]. split; [exact Hp|].
    now apply drawable_false.
  - intros k. apply lookup_key.
Qed.

Lemma simulate_project_raises_only_on_refused_range_witness :
  simulate_project big_stages [0; 5] = (inl ValueError, [5]) /\
  (ValueError = ValueError /\
   exists k st r, lookup big_stages k = Some st /\ In r (Stage.risks st) /\
     (0 < Risk.probability r)%Q /\
     (snd (Risk.impact r) < fst (Risk.impact r) \/
      fst (Risk.impact r) < int64_min \/ int64_max < snd (Risk.impact r))).
Proof.
  assert (Hrun : simulate_project big_stages [0; 5] = (inl ValueError, [5]))
    by (vm_compute; reflexivity).
  split; [exact Hrun|].
  exact (simulate_project_raises_only_on_refused_range big_stages [0; 5]
           ValueError [5] Hrun).
Defined.

(** X4.  A batch that raises has returned from fewer runs than the trial
    count, one after the other, and raises what the next run raised, in the
    generator state that run left; the results of the runs before it are
    not returned.  What it raises is [ValueError]. *)
Theorem run_simulation_raises_at_first_failing_run
    {G : Type} `{RandomState G} (stages : Stages) (n : Z) (g : G) e g' :
  run_simulation stages n g = (inl e, g') ->
  e = ValueError /\
  exists runs g1,
    Z.of_nat (length runs) < n /\ in_sequence stages g runs g1 /\
    simulate_project stages g1 = (inl e, g').
Proof.
  unfold run_simulation. intros Hrun.
  apply batch_loop_inl in Hrun as (runs & g1 & Hlen & Hseq & Hfail).
  rewrite range_length in Hlen. split.
  - unfold simulate_project in Hfail.
    apply stage_loop_inl in Hfail as [He _]; [exact He|].
    intros k. apply lookup_key.
  - exists runs, g1. split; [lia|]. now split.
Qed.

Lemma run_simulation_raises_at_first_failing_run_witness :
  run_simulation invalid_stages 3 [w_max; 0; 5] = (inl ValueError, [5]) /\
  (ValueError = ValueError /\
   exists runs g1,
     Z.of_nat (length runs) < 3 /\
     in_sequence invalid_stages [w_max; 0; 5] runs g1 /\
     simulate_project invalid_stages g1 = (inl ValueError, [5])).
Proof.
  assert (Hrun : run_simulation invalid_stages 3 [w_max; 0; 5]
                 = (inl ValueError, [5])) by (vm_compute; reflexivity).
  split; [exact Hrun|].
  exact (run_simulation_raises_at_first_failing_run invalid_stages 3
           [w_max; 0; 5] ValueError [5] Hrun).
Defined.

(** ** The draws of a run *)

Section Counting.
Context {G : Type} (RS : RandomState G).

Lemma risk_body_counted k r sd td log g c sd' td' log' g' :
  risk_body k r (sd, td, log) g = (inr (sd', td', log'), g') ->
  exists c',
    @risk_body (G * nat) (counted RS) k r (sd, td, log) (g, c)
      = (inr (sd', td', log'), (g', c')) /\
    (c' + length log = c + 1 + length log')%nat.
Proof.
  rewrite (@risk_body_cases (G * nat) (counted RS)), risk_body_cases. cbv zeta.
  cbn [random_sample random_integer counted].
  unfold counted_sample, counted_integer. cbn [fst snd].
  destruct (random_sample g) as [u g1]. cbn [fst snd].
  destruct (Qltb u (Risk.probability r)).
  - destruct (drawable r); [|discriminate].
    destruct (random_integer _ _ g1) as [d g2]. cbn [fst snd].
    intros [= <- <- <- <-]. eexists. split; [reflexivity|].
    rewrite length_app. cbn [length]. lia.
  - intros [= <- <- <- <-]. eexists. split; [reflexivity|]. lia.
Qed.

Lemma risk_loop_counted k rs : forall sd td log g c sd' td' log' g',
  for_each (risk_body k) rs (sd, td, log) g = (inr (sd', td', log'), g') ->
  exists c',
    for_each (@risk_body (G * nat) (counted RS) k) rs (sd, td, log) (g, c)
      = (inr (sd', td', log'), (g', c')) /\
    (c' + length log = c + length rs + length log')%nat.
Proof.
  induction rs as [|r rs IH]; intros sd td log g c sd' td' log' g' Hrun.
  - cbn in Hrun. injection Hrun as <- <- <- <-.
    exists c. split; [reflexivity | cbn; lia].
  - cbn [for_each] in Hrun.
    apply bind_inr in Hrun as ([[sd1 td1] log1] & g1 & Hstep & Hrest).
    destruct (risk_body_counted k r sd td log g c _ _ _ _ Hstep)
      as (c1 & Hstep' & Hc1).
    destruct (IH _ _ _ _ c1 _ _ _ _ Hrest) as (c2 & Hrest' & Hc2).
    exists c2. split.
    + cbn [for_each]. unfold bind. rewrite Hstep'. exact Hrest'.
    + cbn [length]. lia.
Qed.

End Counting.

(** X5.  A run that returns has made exactly one draw for every risk
    definition of the configuration and one more for every event it logs:
    on a generator that counts its draws the run returns the same and the
    counter has advanced by that number. *)
Theorem simulate_project_draws_once_per_risk_and_once_more_per_event
    {G : Type} (RS : RandomState G) (stages : Stages) (g : G) (c : nat)
    td dur log g' :
  dict_wf stages ->
  simulate_project stages g = (inr (td, dur, log), g') ->
  @simulate_project (G * nat) (counted RS) stages (g, c)
    = (inr (td, dur, log), (g', (c + total_risks stages + length log)%nat)).
Proof.
  revert g c td dur log g'.
  induction stages as [|[k st] rest IH]; intros g c td dur log g' Hwf Hrun.
  - cbn in Hrun. injection Hrun as <- <- <- <-. cbn.
    now rewrite !Nat.add_0_r.
  - assert (Hwf' : dict_wf rest) by (now inversion Hwf).
    rewrite simulate_project_cons in Hrun by exact Hwf.
    rewrite (@simulate_project_cons (G * nat) (counted RS)) by exact Hwf.
    unfold stage_then in *.
    apply bind_inr in Hrun as ([[sd td1] log1] & g1 & Hloop & Hrun).
    apply bind_inr in Hrun as ([[td2 dur2] log2] & g2 & Hrest & Hret).
    injection Hret as <- <- <- <-.
    destruct (risk_loop_counted RS k _ _ _ _ g c _ _ _ _ Hloop)
      as (c1 & Hloop' & Hc1).
    unfold bind. rewrite Hloop'.
    rewrite (IH g1 c1 _ _ _ _ Hwf' Hrest). unfold ret.
    f_equal. f_equal.
    unfold total_risks. cbn [flat_map snd]. rewrite !length_app.
    cbn [length] in Hc1. lia.
Qed.

Lemma simulate_project_draws_once_per_risk_and_once_more_per_event_witness :
  exists td dur log g',
    dict_wf DEFAULT_STAGES /\
    simulate_project DEFAULT_STAGES demo_tape = (inr (td, dur, log), g') /\
    @simulate_project (tape * nat) (counted tape_RandomState) DEFAULT_STAGES
                      (demo_tape, 0%nat)
      = (inr (td, dur, log), (g', 8%nat)).
Proof.
  do 4 eexists.
  assert (Hwf : dict_wf DEFAULT_STAGES) by solve_dict_wf.
  split; [exact Hwf|]. split; [vm_compute; reflexivity|].
  match goal with
  | |- _ = (inr (?td, ?dur, ?log), (?g', _)) =>
      assert (Hrun : simulate_project DEFAULT_STAGES demo_tape
                     = (inr (td, dur, log), g')) by (vm_compute; reflexivity);
      exact (simulate_project_draws_once_per_risk_and_once_more_per_event
               tape_RandomState DEFAULT_STAGES demo_tape 0%nat td dur log g'
               Hwf Hrun)
  end.
Defined.

(** ** Batches one after the other *)

Section Splitting.
Context {G : Type} `{RandomState G}.

Lemma for_each_app {A S} (body : A -> S -> M G S) xs ys : forall s g,
  for_each body (xs ++ ys) s g = bind (for_each body xs s) (for_each body ys) g.
Proof.
  induction xs as [|x xs IH]; intros s g; cbn [app for_each].
  - reflexivity.
  - unfold bind. destruct (body x s g) as [[e|s1] g1]; [reflexivity|].
    rewrite IH. reflexivity.
Qed.

Lemma batch_loop_length stages (xs : list Z) : forall (ys : list Z) s g,
  length xs = length ys ->
  for_each (trial_body stages) xs s g = for_each (trial_body stages) ys s g.
Proof.
  induction xs as [|x xs IH]; intros [|y ys] s g Hlen; try discriminate;
    [reflexivity|].
  cbn [for_each]. unfold bind.
  change (trial_body stages y s g) with (trial_body stages x s g).
  destruct (trial_body stages x s g) as [[e|s1] g1]; [reflexivity|].
  apply IH. now injection Hlen.
Qed.

Lemma batch_loop_shift stages xs res reg : forall a b g,
  for_each (trial_body stages) xs (res ++ a, reg ++ b) g =
    match for_each (trial_body stages) xs (a, b) g with
    | (inr (a', b'), g') => (inr (res ++ a', reg ++ b'), g')
    | (inl e, g') => (inl e, g')
    end.
Proof.
  induction xs as [|x xs IH]; intros a b g; cbn [for_each]; [reflexivity|].
  unfold bind, trial_body at 1 3. unfold bind, ret.
  destruct (simulate_project stages g) as [[e|[[td dur] log]] g1];
    [reflexivity|].
  rewrite <- !app_assoc. apply IH.
Qed.

End Splitting.

(** X6.  A batch of [n + m] trials is a batch of [n] trials followed, on the
    generator state it leaves, by a batch of [m] trials, the summaries and
    the registers of the two put end to end; if either raises, so does the
    whole. *)
Theorem run_simulation_of_a_sum_is_two_batches
    {G : Type} `{RandomState G} (stages : Stages) (n m : Z) (g : G) :
  0 <= n -> 0 <= m ->
  run_simulation stages (n + m) g =
    (' (r1, e1) <- run_simulation stages n ;;
     ' (r2, e2) <- run_simulation stages m ;;
     ret (r1 ++ r2, e1 ++ e2)) g.
Proof.
  intros Hn Hm. unfold run_simulation.
  rewrite (batch_loop_length stages (range (n + m)) (range n ++ range m))
    by (rewrite length_app, !range_length; lia).
  rewrite for_each_app. unfold bind.
  destruct (for_each (trial_body stages) (range n) ([], []) g)
    as [[e|[r1 e1]] g1]; [reflexivity|].
  pose proof (batch_loop_shift stages (range m) r1 e1 [] [] g1) as Hshift.
  rewrite !app_nil_r in Hshift. rewrite Hshift.
  destruct (for_each (trial_body stages) (range m) ([], []) g1)
    as [[e|[r2 e2]] g2]; reflexivity.
Qed.

Lemma run_simulation_of_a_sum_is_two_batches_witness :
  0 <= 1 /\ 0 <= 2 /\
  run_simulation DEFAULT_STAGES (1 + 2) demo_tape =
    (' (r1, e1) <- run_simulation DEFAULT_STAGES 1 ;;
     ' (r2, e2) <- run_simulation DEFAULT_STAGES 2 ;;
     ret (r1 ++ r2, e1 ++ e2)) demo_tape.
Proof.
  split; [lia|]. split; [lia|].
  apply run_simulation_of_a_sum_is_two_batches; lia.
Defined.

(** ** The two collections of a batch *)

Lemma runs_delay_conserved (runs : list run) :
  Forall (fun r => exists tr : trace,
            trace_ok tr /\ fst (fst r) = trace_delay tr /\
            run_log r = trace_log tr) runs ->
  sumZ (map Row.delay (map summary runs))
    = sumZ (map Event.delay (flat_map run_log runs)).
Proof.
  induction 1 as [|r runs (tr & Hok & Htd & Hlog) _ IH]; [reflexivity|].
  cbn [map flat_map]. rewrite map_app, sumZ_app, sumZ_cons, IH.
  f_equal. unfold summary; cbn [Row.delay].
  now rewrite Htd, Hlog, trace_log_delay.
Qed.

(** X7.  In a batch that returns there are as many summaries as trials
    (none below 0); the duration of every summary is the sum of the
    baselines of the stages plus the delay of that summary; and the delays
    of the summaries add up to the delays of the records of the register. *)
Theorem run_simulation_summaries_agree_with_register
    {G : Type} `{RandomState G} (stages : Stages) (n : Z) (g : G)
    results register g' :
  dict_wf stages ->
  run_simulation stages n g = (inr (results, register), g') ->
  length results = Z.to_nat n /\
  Forall (fun row => Row.duration row = total_baseline stages + Row.delay row)
         results /\
  sumZ (map Row.delay results) = sumZ (map Event.delay register).
Proof.
  intros Hwf Hrun.
  destruct (run_simulation_inr stages n g results register g' Hrun)
    as (runs & Hlen & Hseq & -> & ->).
  pose proof (in_sequence_trace stages runs g g' Hwf Hseq) as Htr.
  split; [now rewrite length_map|]. split.
  - apply Forall_map. eapply Forall_impl; [|exact Htr].
    intros [[td dur] log] (tr & Hst & _ & Htd & Hdur & _).
    cbn [fst snd] in *. unfold summary; cbn [fst snd Row.duration Row.delay].
    rewrite Hdur, Htd, <- Hst. apply trace_duration_split.
  - apply runs_delay_conserved. eapply Forall_impl; [|exact Htr].
    intros r (tr & _ & Hok & Htd & _ & Hlog). now exists tr.
Qed.

Lemma run_simulation_summaries_agree_with_register_witness :
  exists results register g',
    dict_wf DEFAULT_STAGES /\
    run_simulation DEFAULT_STAGES 3 demo_tape = (inr (results, register), g') /\
    length results = 3%nat /\
    Forall (fun row => Row.duration row = 36 + Row.delay row) results /\
    sumZ (map Row.delay results) = sumZ (map Event.delay register).
Proof.
  do 3 eexists.
  assert (Hwf : dict_wf DEFAULT_STAGES) by solve_dict_wf.
  split; [exact Hwf|]. split; [vm_compute; reflexivity|].
  eapply (run_simulation_summaries_agree_with_register DEFAULT_STAGES 3
            demo_tape _ _ _ Hwf).
  vm_compute; reflexivity.
Defined.

(** ** The order of the log *)

Lemma subseq_nil_l {A} (l : list A) : subseq [] l.
Proof. induction l; now constructor. Qed.

Lemma subseq_app {A} (l1 l1' l2 l2' : list A) :
  subseq l1 l1' -> subseq l2 l2' -> subseq (l1 ++ l2) (l1' ++ l2').
Proof. induction 1; intros H2; cbn [app]; auto; now constructor; auto. Qed.

Lemma outcomes_events_subseq k rs : forall os,
  exists fired : list firing,
    subseq (map fst fired) (map (fun r => (k, r)) rs) /\
    outcomes_events k rs os = map firing_event fired.
Proof.
  induction rs as [|r rs IH]; intros os.
  - exists []. split; [constructor | now destruct os as [|[u [d|]] os]].
  - destruct os as [|[u [d|]] os]; cbn [outcomes_events map].
    + exists []. split; [apply subseq_nil_l | reflexivity].
    + destruct (IH os) as (fired & Hsub & Heq).
      exists ((k, r, d) :: fired). cbn [map fst]. split; [now constructor|].
      now rewrite Heq.
    + destruct (IH os) as (fired & Hsub & Heq).
      exists fired. split; [now constructor | exact Heq].
Qed.

Lemma trace_log_subseq (tr : trace) :
  exists fired : list firing,
    subseq (map fst fired) (definitions (map fst tr)) /\
    trace_log tr = map firing_event fired.
Proof.
  unfold trace_log.
  induction tr as [|[[k st] os] tr (fired & Hsub & Heq)].
  - exists []. split; [constructor | reflexivity].
  - destruct (outcomes_events_subseq k (Stage.risks st) os)
      as (fired0 & Hsub0 & Heq0).
    exists (fired0 ++ fired). cbn [map flat_map fst snd].
    rewrite definitions_cons, !map_app, Heq0, Heq.
    split; [now apply subseq_app | reflexivity].
Qed.

(** X8.  The log of a run holds its events in the order of the risk
    definitions: stage by stage as the configuration holds the stages, and
    within a stage as its list holds the risks, every definition at most
    once; each event carries the stage number, type, severity and mitigation
    of its definition. *)
Theorem simulate_project_logs_in_definition_order
    {G : Type} `{RandomState G} (stages : Stages) (g : G) td dur log g' :
  dict_wf stages ->
  simulate_project stages g = (inr (td, dur, log), g') ->
  exists fired : list firing,
    subseq (map fst fired) (definitions stages) /\
    log = map firing_event fired.
Proof.
  intros Hwf Hrun.
  destruct (simulate_project_trace stages g td dur log g' Hwf Hrun)
    as (tr & Hst & _ & _ & _ & ->).
  rewrite <- Hst. apply trace_log_subseq.
Qed.

Lemma simulate_project_logs_in_definition_order_witness :
  exists td dur log g',
    dict_wf DEFAULT_STAGES /\
    simulate_project DEFAULT_STAGES demo_tape = (inr (td, dur, log), g') /\
    exists fired : list firing,
      subseq (map fst fired) (definitions DEFAULT_STAGES) /\
      log = map firing_event fired.
Proof.
  do 4 eexists.
  assert (Hwf : dict_wf DEFAULT_STAGES) by solve_dict_wf.
  split; [exact Hwf|]. split; [vm_compute; reflexivity|].
  eapply (simulate_project_logs_in_definition_order DEFAULT_STAGES demo_tape
            _ _ _ _ Hwf).
  vm_compute; reflexivity.
Defined.

(** ** What the controls keep *)

Lemma setitem_fresh (d : Stages) (k : Z) (v : Stage.t) :
  ~ In k (keys d) -> setitem d k v = d ++ [(k, v)].
Proof.
  unfold keys. induction d as [|[k0 v0] d IH]; cbn [setitem map fst In app];
    intros Hfresh; [reflexivity|].
  destruct (Z.eqb_spec k0 k) as [->|_]; [exfalso; auto|].
  rewrite IH; auto.
Qed.

Lemma enumerate_snd {A} (l : list A) : map snd (enumerate l) = l.
Proof.
  unfold enumerate. generalize 0%nat.
  induction l as [|a l IH]; intros start; cbn [length seq combine map snd];
    [reflexivity | now rewrite IH].
Qed.

Lemma keys_app (d1 d2 : Stages) : keys (d1 ++ d2) = keys d1 ++ keys d2.
Proof. apply map_app. Qed.

Lemma total_baseline_app (d1 d2 : Stages) :
  total_baseline (d1 ++ d2) = total_baseline d1 + total_baseline d2.
Proof. unfold total_baseline. now rewrite map_app, sumZ_app. Qed.

Section ControlsShape.
Context {U : Type} `{Streamlit U}.

Lemma control_risk_shape stage_num i r rs u rs' u' :
  control_risk stage_num (i, r) rs u = (inr rs', u') ->
  exists r', rs' = rs ++ [r'] /\ same_labels r r' /\ u' = u.
Proof.
  unfold control_risk. intros Hrun.
  apply bind_inr in Hrun as (p & u1 & Hp & Hrun).
  apply bind_inr in Hrun as (lo & u2 & Hlo & Hrun).
  apply bind_inr in Hrun as (hi & u3 & Hhi & Hrun).
  unfold st_slider in Hp. unfold st_number_input in Hlo, Hhi.
  injection Hp as _ <-. injection Hlo as _ <-. injection Hhi as _ <-.
  injection Hrun as <- <-.
  eexists. split; [reflexivity|]. split; [|reflexivity].
  now repeat split.
Qed.

Lemma control_risks_shape stage_num irs : forall rs u rs' u',
  for_each (control_risk stage_num) irs rs u = (inr rs', u') ->
  exists new, rs' = rs ++ new /\ Forall2 same_labels (map snd irs) new /\ u' = u.
Proof.
  induction irs as [|[i r] irs IH]; intros rs u rs' u' Hrun.
  - cbn in Hrun. injection Hrun as <- <-. exists [].
    rewrite app_nil_r. now repeat split; constructor.
  - cbn [for_each] in Hrun.
    apply bind_inr in Hrun as (rs1 & u1 & Hstep & Hrest).
    apply control_risk_shape in Hstep as (r' & -> & Hr' & ->).
    apply IH in Hrest as (new & -> & Hnew & ->).
    exists (r' :: new). rewrite <- app_assoc. cbn [map snd app].
    split; [reflexivity|]. split; [now constructor | reflexivity].
Qed.

Lemma control_stage_shape defaults k st d tb u d' tb' u' :
  lookup defaults k = Some st -> ~ In k (keys d) ->
  control_stage defaults k (d, tb) u = (inr (d', tb'), u') ->
  exists st', d' = d ++ [(k, st')] /\ same_shape (k, st) (k, st') /\
    tb' = tb + Stage.baseline st' /\ u' = u.
Proof.
  intros Hlk Hfresh. unfold control_stage, getitem. rewrite Hlk. intros Hrun.
  apply bind_inr in Hrun as (stage & u1 & Hget & Hrun).
  injection Hget as <- <-.
  apply bind_inr in Hrun as (b & u2 & Hb & Hrun).
  unfold st_number_input in Hb. injection Hb as _ <-.
  apply bind_inr in Hrun as (rs & u3 & Hrs & Hrun).
  injection Hrun as <- <- <-.
  apply control_risks_shape in Hrs as (new & -> & Hnew & ->).
  rewrite enumerate_snd in Hnew. cbn [app] in *.
  eexists. split; [now apply setitem_fresh|].
  split; [|now split]. now repeat split.
Qed.

Lemma control_stages_shape defaults (ents : Stages) : forall d tb u d' tb' u',
  (forall k st, In (k, st) ents -> lookup defaults k = Some st) ->
  NoDup (keys d ++ keys ents) ->
  for_each (control_stage defaults) (keys ents) (d, tb) u
    = (inr (d', tb'), u') ->
  exists new, d' = d ++ new /\ Forall2 same_shape ents new /\
    tb' = tb + total_baseline new /\ u' = u.
Proof.
  induction ents as [|[k st] ents IH]; intros d tb u d' tb' u' Hlk Hnd Hrun.
  - cbn in Hrun. injection Hrun as <- <- <-. exists [].
    rewrite app_nil_r. unfold total_baseline; cbn.
    split; [reflexivity|]. split; [constructor|]. split; [lia | reflexivity].
  - cbn [keys map fst for_each] in Hrun. fold (keys ents) in Hrun.
    apply bind_inr in Hrun as ([d1 tb1] & u1 & Hstep & Hrest).
    assert (Hfresh : ~ In k (keys d)).
    { intros Hin. cbn [keys map fst] in Hnd. fold (keys ents) in Hnd.
      apply NoDup_remove_2 in Hnd. apply Hnd. apply in_or_app. now left. }
    apply (control_stage_shape defaults k st) in Hstep
      as (st' & -> & Hshape & -> & ->);
      [|apply Hlk; now left | exact Hfresh].
    apply IH in Hrest as (new & -> & Hnew & -> & ->).
    + exists ((k, st') :: new). rewrite <- app_assoc. cbn [app].
      split; [reflexivity|]. split; [now constructor|].
      split; [|reflexivity].
      unfold total_baseline, sumZ. cbn [map fold_right snd]. lia.
    + intros k0 st0 Hin. apply Hlk. now right.
    + rewrite keys_app. cbn [keys map fst app]. rewrite <- app_assoc.
      exact Hnd.
Qed.

Lemma create_stage_controls_shape defaults u cfg tb u' :
  dict_wf defaults ->
  create_stage_controls_over defaults u = (inr (cfg, tb), u') ->
  Forall2 same_shape defaults cfg /\ tb = total_baseline cfg /\ u' = u.
Proof.
  intros Hwf Hrun. unfold create_stage_controls_over in Hrun.
  apply control_stages_shape in Hrun as (new & -> & Hnew & -> & ->).
  - cbn [app]. split; [exact Hnew|]. split; [lia | reflexivity].
  - intros k st. now apply lookup_In.
  - exact Hwf.
Qed.

End ControlsShape.

Lemma same_shape_keys (a b : Stages) :
  Forall2 same_shape a b -> keys b = keys a.
Proof.
  unfold keys. induction 1 as [|x y a b (Hk & _) _ IH]; cbn [map];
    [reflexivity | now rewrite Hk, IH].
Qed.

Lemma total_baseline_bounds (stages : Stages) :
  Forall (fun kv => controlled_stage (snd kv)) stages ->
  Z.of_nat (length stages) <= total_baseline stages
    <= 24 * Z.of_nat (length stages).
Proof.
  unfold total_baseline, sumZ.
  induction 1 as [|kv stages [Hb _] _ IH]; cbn [map fold_right length];
    [lia|].
  rewrite Nat2Z.inj_succ. lia.
Qed.

(** X9.  The controls keep the shape of the defaults: the configuration
    they return holds the same stage numbers in the same order, every stage
    under its name, with as many risks in the same order, every risk with
    its type, severity and mitigation.  Only baselines, probabilities and
    impacts come from the widgets. *)
Theorem create_stage_controls_keeps_the_shape
    {U : Type} `{Streamlit U} (defaults : Stages) (u : U) cfg tb u' :
  dict_wf defaults ->
  create_stage_controls_over defaults u = (inr (cfg, tb), u') ->
  keys cfg = keys defaults /\ Forall2 same_shape defaults cfg.
Proof.
  intros Hwf Hrun.
  destruct (create_stage_controls_shape defaults u cfg tb u' Hwf Hrun)
    as (Hshape & _ & _).
  split; [now apply same_shape_keys | exact Hshape].
Qed.

Lemma create_stage_controls_keeps_the_shape_witness :
  exists cfg tb u',
    dict_wf DEFAULT_STAGES /\
    create_stage_controls funding_min_2 = (inr (cfg, tb), u') /\
    keys cfg = keys DEFAULT_STAGES /\ Forall2 same_shape DEFAULT_STAGES cfg.
Proof.
  do 3 eexists.
  assert (Hwf : dict_wf DEFAULT_STAGES) by solve_dict_wf.
  split; [exact Hwf|]. split; [vm_compute; reflexivity|].
  eapply (create_stage_controls_keeps_the_shape DEFAULT_STAGES funding_min_2
            _ _ _ Hwf).
  vm_compute; reflexivity.
Defined.

(** X10.  The total baseline the controls return is the sum of the
    baselines of the configuration they return, and lies between the number
    of stages and 24 times that number. *)
Theorem create_stage_controls_total_is_sum_of_baselines
    {U : Type} `{Streamlit U} (defaults : Stages) (u : U) cfg tb u' :
  dict_wf defaults ->
  create_stage_controls_over defaults u = (inr (cfg, tb), u') ->
  tb = total_baseline cfg /\
  Z.of_nat (length cfg) <= tb <= 24 * Z.of_nat (length cfg).
Proof.
  intros Hwf Hrun.
  destruct (create_stage_controls_shape defaults u cfg tb u' Hwf Hrun)
    as (_ & -> & _).
  split; [reflexivity|]. apply total_baseline_bounds.
  unfold create_stage_controls_over in Hrun.
  apply control_stages_inr in Hrun as [_ Hall]; [exact Hall|].
  split; constructor.
Qed.

Lemma create_stage_controls_total_is_sum_of_baselines_witness :
  exists cfg tb u',
    dict_wf DEFAULT_STAGES /\
    create_stage_controls funding_min_2 = (inr (cfg, tb), u') /\
    tb = total_baseline cfg /\
    Z.of_nat (length cfg) <= tb <= 24 * Z.of_nat (length cfg).
Proof.
  do 3 eexists.
  assert (Hwf : dict_wf DEFAULT_STAGES) by solve_dict_wf.
  split; [exact Hwf|]. split; [vm_compute; reflexivity|].
  eapply (create_stage_controls_total_is_sum_of_baselines DEFAULT_STAGES
            funding_min_2 _ _ _ Hwf).
  vm_compute; reflexivity.
Defined.

(** ** The controls and the batch together *)

Lemma controlled_ordered (stages : Stages) :
  Forall (fun kv => controlled_stage (snd kv)) stages ->
  every_risk impact_ordered stages.
Proof.
  intros Hall. unfold every_risk. eapply Forall_impl; [|exact Hall].
  intros kv [_ Hrs]. eapply Forall_impl; [|exact Hrs].
  intros r (_ & _ & Himp & _). exact Himp.
Qed.

Lemma controlled_safe (stages : Stages) :
  Forall (fun kv => controlled_stage (snd kv)) stages ->
  safe_configuration stages.
Proof.
  intros Hall. unfold safe_configuration. eapply Forall_impl; [|exact Hall].
  intros kv [_ Hrs]. eapply Forall_impl; [|exact Hrs].
  intros r (_ & _ & Himp & Hmax). left. apply drawable_iff.
  pose proof int64_min_nonpos. pose proof int64_max_above_24. lia.
Qed.

Lemma max_total_delay_bound (stages : Stages) :
  Forall (fun kv => controlled_stage (snd kv)) stages ->
  max_total_delay stages <= 24 * Z.of_nat (total_risks stages).
Proof.
  intros Hall. rewrite <- definitions_length. unfold max_total_delay.
  assert (Hdefs : Forall (fun kr => snd (Risk.impact (snd kr)) <= 24)
                         (definitions stages)).
  { apply Forall_forall. intros [k r] Hin. unfold definitions in Hin.
    apply in_flat_map in Hin as (kv & Hkv & Hin).
    apply in_map_iff in Hin as (r0 & [= <- <-] & Hr0).
    destruct (proj1 (Forall_forall _ _) Hall kv Hkv) as [_ Hrs].
    destruct (proj1 (Forall_forall _ _) Hrs r0 Hr0) as (_ & _ & _ & Hmax).
    exact Hmax. }
  induction Hdefs as [|kr l Hkr _ IH]; [cbn; lia|].
  cbn [map length]. rewrite sumZ_cons, Nat2Z.inj_succ. lia.
Qed.

(** X11.  A configuration the controls return can be handed to the batch
    with any trial count and any generator: the batch returns, with as many
    summaries as trials, and in every summary the duration is the total
    baseline the controls returned plus the delay, the delay lying between 0
    and 24 for each risk definition. *)
Theorem controls_then_batch_returns
    {U : Type} `{Streamlit U} {G : Type} `{RandomState G}
    (defaults : Stages) (u : U) cfg tb u' (n : Z) (g : G) :
  dict_wf defaults ->
  create_stage_controls_over defaults u = (inr (cfg, tb), u') ->
  exists results register g',
    run_simulation cfg n g = (inr (results, register), g') /\
    length results = Z.to_nat n /\
    Forall (fun row => Row.duration row = tb + Row.delay row /\
                       0 <= Row.delay row <= 24 * Z.of_nat (total_risks cfg))
           results.
Proof.
  intros Hwf Hrun.
  destruct (create_stage_controls_shape defaults u cfg tb u' Hwf Hrun)
    as (_ & -> & _).
  assert (Hcfg : controlled_configuration cfg).
  { unfold create_stage_controls_over in Hrun.
    apply control_stages_inr in Hrun; [exact Hrun|]. split; constructor. }
  destruct Hcfg as [Hwfc Hall].
  destruct (batch_runs cfg n g Hwfc
              (controlled_safe cfg Hall))
    as (runs & g' & Hbatch & Hlen & Htr).
  exists (map summary runs), (flat_map run_log runs), g'.
  split; [exact Hbatch|]. split; [now rewrite length_map|].
  apply Forall_map. eapply Forall_impl; [|exact Htr].
  intros [[td dur] log] (tr & Hst & Hok & Htd & Hdur & _).
  cbn [fst snd] in *. unfold summary; cbn [fst snd Row.duration Row.delay].
  rewrite <- Hst in Hall.
  pose proof (trace_delay_bounds tr (controlled_ordered _ Hall) Hok) as Hb.
  pose proof (max_total_delay_bound _ Hall) as Hmax.
  rewrite Hdur, Htd, trace_duration_split, <- Hst. split; lia.
Qed.

Lemma controls_then_batch_returns_witness :
  exists cfg tb u',
    dict_wf DEFAULT_STAGES /\
    create_stage_controls funding_min_2 = (inr (cfg, tb), u') /\
    exists results register g',
      run_simulation cfg 4 demo_tape = (inr (results, register), g') /\
      length results = 4%nat /\
      Forall (fun row => Row.duration row = tb + Row.delay row /\
                         0 <= Row.delay row
                           <= 24 * Z.of_nat (total_risks cfg))
             results.
Proof.
  do 3 eexists.
  assert (Hwf : dict_wf DEFAULT_STAGES) by solve_dict_wf.
  split; [exact Hwf|]. split; [vm_compute; reflexivity|].
  eapply (controls_then_batch_returns DEFAULT_STAGES funding_min_2 _ _ _ 4
            demo_tape Hwf).
  vm_compute; reflexivity.
Defined.

(** ** A session in which nothing has been touched *)

Section Untouched.
Context {U : Type} `{Streamlit U}.

Lemma control_risk_untouched stage_num i r rs u :
  untouched u -> controlled_risk r ->
  control_risk stage_num (i, r) rs u = (inr (rs ++ [r]), u).
Proof.
  intros [Hnum Hslide] (Hp0 & Hp1 & Himp & Hmax).
  unfold control_risk, bind, st_slider, st_number_input.
  rewrite Hslide by (split; assumption).
  rewrite Hnum by lia. rewrite Hnum by lia.
  unfold ret. destruct r as [t p [lo hi] s m]. reflexivity.
Qed.

Lemma control_risks_untouched stage_num irs u : forall rs,
  untouched u -> Forall controlled_risk (map snd irs) ->
  for_each (control_risk stage_num) irs rs u = (inr (rs ++ map snd irs), u).
Proof.
  induction irs as [|[i r] irs IH]; intros rs Hu Hall; cbn [for_each map snd].
  - now rewrite app_nil_r.
  - inversion Hall as [|? ? Hr Hrest]; subst.
    unfold bind. rewrite control_risk_untouched by assumption.
    rewrite IH by assumption. now rewrite <- app_assoc.
Qed.

Lemma control_stage_untouched defaults k st d tb u :
  untouched u -> lookup defaults k = Some st -> controlled_stage st ->
  ~ In k (keys d) ->
  control_stage defaults k (d, tb) u
    = (inr (d ++ [(k, st)], tb + Stage.baseline st), u).
Proof.
  intros Hu Hlk [Hb Hrs] Hfresh.
  unfold control_stage, getitem. rewrite Hlk.
  unfold bind at 1, ret at 1. unfold bind at 1, st_number_input.
  rewrite (proj1 Hu) by lia.
  unfold bind. rewrite control_risks_untouched;
    [|exact Hu | now rewrite enumerate_snd].
  rewrite enumerate_snd. cbn [app]. unfold ret.
  rewrite setitem_fresh by exact Hfresh.
  destruct st as [nm b rs]. reflexivity.
Qed.

Lemma control_stages_untouched defaults (ents : Stages) u : forall d tb,
  untouched u ->
  (forall k st, In (k, st) ents -> lookup defaults k = Some st) ->
  Forall (fun kv => controlled_stage (snd kv)) ents ->
  NoDup (keys d ++ keys ents) ->
  for_each (control_stage defaults) (keys ents) (d, tb) u
    = (inr (d ++ ents, tb + total_baseline ents), u).
Proof.
  induction ents as [|[k st] ents IH]; intros d tb Hu Hlk Hall Hnd.
  - cbn. unfold total_baseline; cbn. now rewrite app_nil_r, Z.add_0_r.
  - inversion Hall as [|? ? Hst Hrest]; subst. cbn [snd] in Hst.
    cbn [keys map fst for_each]. fold (keys ents).
    assert (Hfresh : ~ In k (keys d)).
    { intros Hin. cbn [keys map fst] in Hnd. fold (keys ents) in Hnd.
      apply NoDup_remove_2 in Hnd. apply Hnd. apply in_or_app. now left. }
    unfold bind.
    rewrite (control_stage_untouched defaults k st d tb u Hu
               (Hlk k st (or_introl eq_refl)) Hst Hfresh).
    rewrite IH.
    + rewrite <- app_assoc. cbn [app]. f_equal. f_equal. f_equal.
      unfold total_baseline, sumZ. cbn [map fold_right snd]. lia.
    + exact Hu.
    + intros k0 st0 Hin. apply Hlk. now right.
    + exact Hrest.
    + rewrite keys_app. cbn [keys map fst app]. rewrite <- app_assoc.
      exact Hnd.
Qed.

End Untouched.

(** X12.  In a session in which no widget has been touched, and over
    defaults every widget accepts (baselines from 1 to 24, probabilities
    from 0 to 1, impacts with [0 <= impact_min <= impact_max <= 24]), the
    controls return the defaults as they are, with the sum of their
    baselines, and raise nothing. *)
Theorem create_stage_controls_untouched_returns_the_defaults
    {U : Type} `{Streamlit U} (defaults : Stages) (u : U) :
  untouched u -> controlled_configuration defaults ->
  create_stage_controls_over defaults u
    = (inr (defaults, total_baseline defaults), u).
Proof.
  intros Hu [Hwf Hall]. unfold create_stage_controls_over.
  assert (Hlk : forall k st, In (k, st) defaults -> lookup defaults k = Some st)
    by (intros k st; now apply lookup_In).
  pose proof (control_stages_untouched defaults defaults u [] 0 Hu Hlk Hall Hwf)
    as Hrun.
  cbn [app] in Hrun. rewrite Z.add_0_l in Hrun. exact Hrun.
Qed.

Lemma untouched_first_render : untouched first_render.
Proof.
  split.
  - intros key lo hi v Hv. cbn [number_input session_Streamlit].
    unfold session_number_input, within, first_render.
    destruct (Z.leb_spec lo v), (Z.leb_spec v hi); try lia. reflexivity.
  - intros key lo hi v [H1 H2]. cbn [slider session_Streamlit].
    unfold session_slider.
    apply Qle_bool_iff in H1, H2. now rewrite H1, H2.
Qed.

Lemma controlled_DEFAULT_STAGES : controlled_configuration DEFAULT_STAGES.
Proof.
  split; [solve_dict_wf|].
  repeat constructor; cbn; try lia; try discriminate.
Qed.

Lemma create_stage_controls_untouched_returns_the_defaults_witness :
  untouched first_render /\ controlled_configuration DEFAULT_STAGES /\
  create_stage_controls first_render = (inr (DEFAULT_STAGES, 36), first_render).
Proof.
  split; [exact untouched_first_render|].
  split; [exact controlled_DEFAULT_STAGES|].
  exact (create_stage_controls_untouched_returns_the_defaults DEFAULT_STAGES
           first_render untouched_first_render controlled_DEFAULT_STAGES).
Defined.
